(** * CompX, packages/electron_app/build.py: the parallel build launcher

    A shallow embedding of [build.py] and of the two standard-library
    services it is written against ([subprocess.check_call] and
    [multiprocessing.Pool]), followed by the properties of the launcher.

    The script is effectful: it writes to standard output, creates child
    processes and waits for them, and does so from several pool workers at
    once.  Worker code is embedded as a small free monad [prog] over three
    operating-system requests; an [OS] record answers the requests, so the
    embedding runs on a concrete host description and the theorems range
    over every host.  The pool is a step function driven by a schedule that
    names, at each step, the task batch that moves next. *)

From Stdlib Require Import String Ascii ZArith List Lia Bool Arith.
From ExtLib Require Import Structures.Monad Structures.MonadExc.
Import ListNotations.
Import MonadNotation.

Local Open Scope string_scope.
Local Open Scope list_scope.
Local Open Scope Z_scope.
Local Open Scope monad_scope.

(** ** Python values the script manipulates *)

(** The exception classes that can reach the script.  [OSError] carries the
    [errno] of a failed [exec]; Python picks the subclass from it, and
    [ENOENT] makes it a [FileNotFoundError]. *)
Inductive exn : Type :=
| CalledProcessError (returncode : Z) (cmd : string)
| OSError (errno : Z) (filename : string)
| ValueError (msg : string).

Definition ENOENT : Z := 2.

Definition FileNotFoundError (filename : string) : exn := OSError ENOENT filename.

(** [isinstance(e, CalledProcessError)], the test of the [except] clause. *)
Definition is_CalledProcessError (e : exn) : bool :=
  match e with
  | CalledProcessError _ _ => true
  | _ => false
  end.

Definition pid : Type := Z.

(** What the parent learns from [fork]+[exec]: the child exists, or the
    [exec] failed in the child and its [errno] came back on the error pipe. *)
Inductive spawned : Type :=
| ExecFailed (errno : Z)
| Child (p : pid).

(** How a call ends. *)
Inductive outcome (A : Type) : Type :=
| Returned (a : A)
| Raised (e : exn).
Arguments Returned {A} a.
Arguments Raised {A} e.

(** ** Worker programs *)

(** A program either ends ([Ret], [Raise]) or issues one request to the
    operating system and continues with the answer. *)
Inductive prog (A : Type) : Type :=
| Ret (a : A)
| Raise (e : exn)
| Write (s : string) (k : prog A)
| ForkExec (executable : string) (argv : list string) (k : spawned -> prog A)
| WaitPid (p : pid) (k : Z -> prog A).
Arguments Ret {A} a.
Arguments Raise {A} e.
Arguments Write {A} s k.
Arguments ForkExec {A} executable argv k.
Arguments WaitPid {A} p k.

Fixpoint pbind {A B : Type} (c : prog A) (f : A -> prog B) : prog B :=
  match c with
  | Ret a => f a
  | Raise e => Raise e
  | Write s k => Write s (pbind k f)
  | ForkExec x v k => ForkExec x v (fun r => pbind (k r) f)
  | WaitPid p k => WaitPid p (fun rc => pbind (k rc) f)
  end.

(** [try: c  except ...: h e] *)
Fixpoint try_except {A : Type} (c : prog A) (h : exn -> prog A) : prog A :=
  match c with
  | Ret a => Ret a
  | Raise e => h e
  | Write s k => Write s (try_except k h)
  | ForkExec x v k => ForkExec x v (fun r => try_except (k r) h)
  | WaitPid p k => WaitPid p (fun rc => try_except (k rc) h)
  end.

#[global] Instance Monad_prog : Monad prog :=
  {| ret := @Ret; bind := @pbind |}.

#[global] Instance Exc_prog : MonadExc exn prog :=
  {| raise := @Raise; catch := @try_except |}.

(** ** The [subprocess] module, as far as the script uses it

    This is the POSIX half of the module ([Popen._execute_child]); the
    commands of the script ([pwd], [cp], [pushd]) are written for such a
    host. *)

Definition newline : string := String (ascii_of_nat 10) EmptyString.

(** [print(s)]: one write of [s] and the line terminator to standard
    output.  The buffer of [sys.stdout] is not modelled: the line counts as
    written when [print] returns. *)
Definition print (s : string) : prog unit :=
  Write (s ++ newline) (Ret tt).

Definition unix_shell : string := "/bin/sh".

(** A string that holds a NUL byte is no C string. *)
Fixpoint has_nul (s : string) : bool :=
  match s with
  | EmptyString => false
  | String c s' => Ascii.eqb c Ascii.zero || has_nul s'
  end.

(** [Popen(args, shell=shell)] for a string [args].  A string becomes the
    one-element argument vector [[args]]; only [shell=True] puts
    [/bin/sh -c] in front.  The executable is the first element.  The
    vector is converted to C strings before anything is forked, and a
    string with a NUL byte is refused there with [ValueError]: no request
    reaches the host. *)
Definition Popen (shell : bool) (args : string) : prog pid :=
  let argv := [args] in
  let argv := if shell then [unix_shell; "-c"] ++ argv else argv in
  let executable := hd "" argv in
  if existsb has_nul argv
  then Raise (ValueError "embedded null byte")
  else
    ForkExec executable argv
      (fun r => match r with
                | ExecFailed errno => Raise (OSError errno executable)
                | Child p => Ret p
                end).

(** [call]: create the child and wait for it; the result is its return code. *)
Definition call (shell : bool) (args : string) : prog Z :=
  p <- Popen shell args ;;
  WaitPid p Ret.

(** [check_call]: [call], then raise [CalledProcessError] on a return code
    other than zero. *)
Definition check_call_kw (shell : bool) (args : string) : prog Z :=
  retcode <- call shell args ;;
  if retcode =? 0 then ret 0 else raise (CalledProcessError retcode args).

(** The script never passes [shell]; its default is [False]. *)
Definition check_call (args : string) : prog Z := check_call_kw false args.

(** ** build.py *)

Definition BuildProcess_body (cmd : string) : prog unit :=
  print ("BUILDING " ++ cmd) ;;
  check_call "pwd" ;;
  check_call cmd ;;
  ret tt.

Definition BuildProcess (cmd : string) : prog unit :=
  catch (BuildProcess_body cmd)
        (fun e => if is_CalledProcessError e then ret tt else raise e).

Definition commands : list string :=
  [ "cp -R dist ../electron_app/dist/renderer";
    "pushd ../web_app && npm run build &&  && popd" ].

(** ** Hosts *)

Record OS : Type := {
  world : Type;
  os_write : string -> world -> world;
  os_fork_exec : string -> list string -> world -> spawned * world;
  os_waitpid : pid -> world -> Z * world
}.

(** One answered request. *)
Inductive event : Type :=
| EvWrite (s : string)
| EvExec (executable : string) (argv : list string) (r : spawned)
| EvWait (p : pid) (returncode : Z).

Section Run.
Context (os : OS).

(** One request of a program, answered by the host. *)
Definition step {A : Type} (c : prog A) (w : world os)
  : option (event * prog A * world os) :=
  match c with
  | Ret _ | Raise _ => None
  | Write s k => Some (EvWrite s, k, os_write os s w)
  | ForkExec x v k =>
      let (r, w') := os_fork_exec os x v w in Some (EvExec x v r, k r, w')
  | WaitPid p k =>
      let (rc, w') := os_waitpid os p w in Some (EvWait p rc, k rc, w')
  end.

(** A program run to its end in one worker, nothing else touching the
    host meanwhile. *)
Fixpoint run {A : Type} (c : prog A) (w : world os)
  : outcome A * list event * world os :=
  match c with
  | Ret a => (Returned a, [], w)
  | Raise e => (Raised e, [], w)
  | Write s k =>
      let '(o, t, w') := run k (os_write os s w) in (o, EvWrite s :: t, w')
  | ForkExec x v k =>
      let (r, w1) := os_fork_exec os x v w in
      let '(o, t, w') := run (k r) w1 in (o, EvExec x v r :: t, w')
  | WaitPid p k =>
      let (rc, w1) := os_waitpid os p w in
      let '(o, t, w') := run (k rc) w1 in (o, EvWait p rc :: t, w')
  end.

Definition result_of {A : Type} (c : prog A) (w : world os) : outcome A :=
  fst (fst (run c w)).

Definition trace_of {A : Type} (c : prog A) (w : world os) : list event :=
  snd (fst (run c w)).
End Run.

Arguments step {os A} c w.
Arguments run {os A} c w.
Arguments result_of {os A} c w.
Arguments trace_of {os A} c w.

(** ** The [multiprocessing] module, as far as the script uses it

    [Pool] and [Pool.map] as CPython 3.11 has them: [map] cuts the iterable
    into batches, a worker runs a batch with [mapstar], and the call
    returns once every batch has reported, raising the first failure
    reported if there is one.

    Which worker runs which batch is not modelled.  At each step any batch
    that is not done may move, so the schedules considered here include
    every interleaving a pool of any size can produce; the pool size
    enters through the constructor and the chunk size only. *)

(** A pool that was constructed; [pool_size] is [len(self._pool)]. *)
Record pool : Type := { pool_size : Z }.

(** [Pool(processes)]: the constructor refuses fewer than one process. *)
Definition Pool (processes : Z) : outcome pool :=
  if processes <? 1
  then Raised (ValueError "Number of processes must be at least 1")
  else Returned {| pool_size := processes |}.

(** The chunk size [_map_async] chooses when the caller gives none. *)
Definition chunksize_for (p : pool) (len : Z) : Z :=
  let chunksize := len / (pool_size p * 4) in
  let extra := len mod (pool_size p * 4) in
  let chunksize := if extra =? 0 then chunksize else chunksize + 1 in
  if len =? 0 then 0 else chunksize.

(** [Pool._get_tasks]: slices of [size] items until the iterable is empty.
    Every slice but an empty one consumes an item, so [length it] rounds
    are enough. *)
Fixpoint get_tasks_fuel {A : Type} (fuel : nat) (it : list A) (size : nat)
  : list (list A) :=
  match fuel with
  | O => []
  | S fuel' =>
      match firstn size it with
      | [] => []
      | x => x :: get_tasks_fuel fuel' (skipn size it) size
      end
  end.

Definition get_tasks {A : Type} (it : list A) (size : nat) : list (list A) :=
  get_tasks_fuel (length it) it size.

(** The batches [_map_async] makes of an iterable. *)
Definition task_batches {A : Type} (p : pool) (iterable : list A)
  : list (list A) :=
  let chunksize := chunksize_for p (Z.of_nat (length iterable)) in
  get_tasks iterable (Z.to_nat chunksize).

(** [mapstar((func, x))] is [list(map(func, x))]: the items of one batch are
    done one after the other, and the first exception ends the batch. *)
Fixpoint mapstar {A B : Type} (func : A -> prog B) (x : list A) : prog (list B) :=
  match x with
  | [] => ret []
  | a :: x' =>
      b <- func a ;;
      bs <- mapstar func x' ;;
      ret (b :: bs)
  end.

(** The result of a program that has ended. *)
Definition ended {A : Type} (c : prog A) : option (outcome A) :=
  match c with
  | Ret a => Some (Returned a)
  | Raise e => Some (Raised e)
  | _ => None
  end.

Definition halted {A : Type} (o : outcome A) : prog A :=
  match o with
  | Returned a => Ret a
  | Raised e => Raise e
  end.

(** [MapResult._set] keeps the first failure it is given and no other. *)
Definition first_failure {B : Type} (stored : option exn) (o : outcome B)
  : option exn :=
  match stored, o with
  | Some e0, _ => Some e0
  | None, Raised e => Some e
  | None, Returned _ => None
  end.

(** A batch is in a worker ([Running]) until its result has been handed
    back to the parent ([Done]). *)
Inductive task (B : Type) : Type :=
| Running (c : prog (list B))
| Done (o : outcome (list B)).
Arguments Running {B} c.
Arguments Done {B} o.

Definition is_done {B : Type} (t : task B) : bool :=
  match t with
  | Done _ => true
  | Running _ => false
  end.

(** [l[i] = x], nothing when [i] is out of range. *)
Fixpoint set_nth {X : Type} (l : list X) (i : nat) (x : X) : list X :=
  match l, i with
  | [], _ => []
  | _ :: l', O => x :: l'
  | y :: l', S i' => y :: set_nth l' i' x
  end.

Section PoolMap.
Context (os : OS).

(** One [map] call in progress: the host, the requests answered so far
    (each tagged with the number of the batch that issued it, oldest
    first), the batches, and [MapResult._value] when a batch has failed
    (only the first failure is stored). *)
Record job (B : Type) : Type := {
  j_world : world os;
  j_trace : list (nat * event);
  j_tasks : list (task B);
  j_failure : option exn
}.
Arguments j_world {B} j.
Arguments j_trace {B} j.
Arguments j_tasks {B} j.
Arguments j_failure {B} j.

(** Batch [i] moves: its worker issues the next request, or, when the
    batch has ended, its result reaches the parent ([MapResult._set]).
    A batch that is done, or a number that names no batch, moves
    nothing. *)
Definition pool_step {B : Type} (j : job B) (i : nat) : job B :=
  match nth_error (j_tasks j) i with
  | Some (Running c) =>
      match ended c with
      | Some o =>
          {| j_world := j_world j; j_trace := j_trace j;
             j_tasks := set_nth (j_tasks j) i (Done o);
             j_failure := first_failure (j_failure j) o |}
      | None =>
          match step c (j_world j) with
          | Some (ev, c', w') =>
              {| j_world := w'; j_trace := j_trace j ++ [(i, ev)];
                 j_tasks := set_nth (j_tasks j) i (Running c');
                 j_failure := j_failure j |}
          | None => j
          end
      end
  | _ => j
  end.

(** A schedule names the batch that moves at each step. *)
Definition sched_run {B : Type} (j : job B) (sched : list nat) : job B :=
  fold_left pool_step sched j.

Definition task_value {B : Type} (t : task B) : list B :=
  match t with
  | Done (Returned l) => l
  | _ => []
  end.

(** [MapResult.get]: nothing while a batch is outstanding; then the
    stored failure is raised, or the values are returned in input order. *)
Definition map_get {B : Type} (j : job B) : option (outcome (list B)) :=
  if forallb is_done (j_tasks j)
  then Some match j_failure j with
            | Some e => Raised e
            | None => Returned (concat (map task_value (j_tasks j)))
            end
  else None.

(** [_map_async]: cut the iterable into batches and queue them. *)
Definition map_async {A B : Type} (p : pool) (func : A -> prog B)
    (iterable : list A) (w : world os) : job B :=
  {| j_world := w; j_trace := [];
     j_tasks := List.map (fun x => Running (mapstar func x))
                         (task_batches p iterable);
     j_failure := None |}.

(** [p.map(func, iterable)] under a schedule.  [None]: the schedule ends
    with a batch outstanding, the call has not returned. *)
Definition pool_map {A B : Type} (p : pool) (func : A -> prog B)
    (iterable : list A) (sched : list nat) (w : world os)
  : option (outcome (list B) * list (nat * event) * world os) :=
  let j := sched_run (map_async p func iterable w) sched in
  match map_get j with
  | Some o => Some (o, j_trace j, j_world j)
  | None => None
  end.

(** The [__main__] block; [cpu_count] is what [cpu_count()] detected.
    When the constructor raises, nothing is dispatched.  The list [map]
    returns is dropped, and leaving the [with] block ends a pool whose
    batches are all done. *)
Definition main (cpu_count : Z) (sched : list nat) (w : world os)
  : option (outcome unit * list (nat * event) * world os) :=
  match Pool (cpu_count - 1) with
  | Raised e => Some (Raised e, [], w)
  | Returned p =>
      match pool_map p BuildProcess commands sched w with
      | Some (Returned _, t, w') => Some (Returned tt, t, w')
      | Some (Raised e, t, w') => Some (Raised e, t, w')
      | None => None
      end
  end.
End PoolMap.

Arguments j_world {os B} j.
Arguments j_trace {os B} j.
Arguments j_tasks {os B} j.
Arguments j_failure {os B} j.
Arguments pool_step {os B} j i.
Arguments sched_run {os B} j sched.
Arguments map_get {os B} j.
Arguments map_async {os A B} p func iterable w.
Arguments pool_map {os A B} p func iterable sched w.

(** The number of workers [main] ends up with, when it gets a pool. *)
Definition worker_count (cpu_count : Z) : outcome Z :=
  match Pool (cpu_count - 1) with
  | Returned p => Returned (pool_size p)
  | Raised e => Raised e
  end.

(** ** Concrete hosts *)

(** A host described by the programs it can execute: [programs x] is the
    exit status of program [x], or [None] when no such file exists.  The
    world is the next free process id and the children not yet reaped. *)
Definition table_world : Type := pid * list (pid * Z).

Fixpoint reap (p : pid) (cs : list (pid * Z)) : Z * list (pid * Z) :=
  match cs with
  | [] => (0, [])
  | (q, rc) :: cs' =>
      if q =? p then (rc, cs')
      else let (r, rest) := reap p cs' in (r, (q, rc) :: rest)
  end.

Definition table_host (programs : string -> option Z) : OS :=
  {| world := table_world;
     os_write := fun _ w => w;
     os_fork_exec := fun x _ w =>
       match programs x with
       | None => (ExecFailed ENOENT, w)
       | Some rc => (Child (fst w), (fst w + 1, (fst w, rc) :: snd w))
       end;
     os_waitpid := fun p w =>
       let (rc, cs) := reap p (snd w) in (rc, (fst w, cs)) |}.

Definition boot : table_world := (100, []).

(** An ordinary POSIX host: [pwd] and [/bin/sh] exist and succeed, and no
    file is named after a whole command line. *)
Definition posix_programs (x : string) : option Z :=
  if String.eqb x "pwd" then Some 0
  else if String.eqb x "/bin/sh" then Some 0
  else None.

Definition posix_host : OS := table_host posix_programs.

(** Hosts that differ in two places only: the exit status of [pwd], and
    what every other name is ([None]: no such file). *)
Definition table_programs (pwd_rc : Z) (others : option Z) (x : string)
  : option Z :=
  if String.eqb x "pwd" then Some pwd_rc else others.

(** Every name is a program; all exit with [rc] but [pwd], which succeeds. *)
Definition any_host (rc : Z) : OS := table_host (table_programs 0 (Some rc)).

(** The working directory was removed under the script: [pwd] cannot name
    it and exits with status 1.  Every other program succeeds. *)
Definition lost_cwd_host : OS := table_host (table_programs 1 (Some 0)).

(** ** Reading a trace *)

(** The line [print(f"BUILDING {cmd}")] writes. *)
Definition notice (cmd : string) : event := EvWrite ("BUILDING " ++ cmd ++ newline).

Definition is_exec (ev : event) : bool :=
  match ev with
  | EvExec _ _ _ => true
  | _ => false
  end.

(** A request to execute through the shell: [/bin/sh -c ...]. *)
Definition is_shell_exec (ev : event) : bool :=
  match ev with
  | EvExec x (x0 :: flag :: _) _ =>
      String.eqb x unix_shell && String.eqb x0 unix_shell && String.eqb flag "-c"
  | _ => false
  end.

(** The children a trace creates, and the children it waits for. *)
Fixpoint created (t : list event) : list pid :=
  match t with
  | [] => []
  | EvExec _ _ (Child p) :: t' => p :: created t'
  | _ :: t' => created t'
  end.

Fixpoint waited (t : list event) : list pid :=
  match t with
  | [] => []
  | EvWait p _ :: t' => p :: waited t'
  | _ :: t' => waited t'
  end.

(** The worker has three steps; in a trace of [BuildProcess] the first
    event belongs to step 1, the next two to step 2 and the rest to
    step 3. *)
Definition step1_events (t : list event) : list event := firstn 1 t.
Definition step2_events (t : list event) : list event := firstn 2 (skipn 1 t).
Definition step3_events (t : list event) : list event := skipn 3 t.

(** The exit status of the diagnostic, when it ran to its end. *)
Definition diagnostic_status (t : list event) : option Z :=
  match step2_events t with
  | [EvExec _ _ (Child p); EvWait _ rc] => Some rc
  | _ => None
  end.

(** How many times the target command was handed to [exec]. *)
Definition target_attempts (t : list event) : nat :=
  length (filter is_exec (step3_events t)).

(** The requests of batch [i] in the trace of a [map] call. *)
Definition events_of (i : nat) (t : list (nat * event)) : list event :=
  map snd (filter (fun x => Nat.eqb (fst x) i) t).

(** [reach c t c']: program [c] issues the requests of [t], receives the
    answers recorded there, and is then at [c'].  No host is named: the
    answers are whatever the trace says. *)
Inductive reach {A : Type} : prog A -> list event -> prog A -> Prop :=
| reach_here c : reach c [] c
| reach_write s k t c' :
    reach k t c' -> reach (Write s k) (EvWrite s :: t) c'
| reach_exec x v k r t c' :
    reach (k r) t c' -> reach (ForkExec x v k) (EvExec x v r :: t) c'
| reach_wait p k rc t c' :
    reach (k rc) t c' -> reach (WaitPid p k) (EvWait p rc :: t) c'.

(** The complete runs of [BuildProcess cmd], with their results: the
    diagnostic cannot be started; it exits with a status other than zero;
    the command is refused by [Popen]; the command cannot be started; the
    command runs. *)
Inductive BuildProcess_run (cmd : string) : outcome unit -> list event -> Prop :=
| bp_diagnostic_missing errno :
    BuildProcess_run cmd (Raised (OSError errno "pwd"))
      [notice cmd; EvExec "pwd" ["pwd"] (ExecFailed errno)]
| bp_diagnostic_failed p rc :
    rc <> 0 ->
    BuildProcess_run cmd (Returned tt)
      [notice cmd; EvExec "pwd" ["pwd"] (Child p); EvWait p rc]
| bp_target_refused p :
    has_nul cmd = true ->
    BuildProcess_run cmd (Raised (ValueError "embedded null byte"))
      [notice cmd; EvExec "pwd" ["pwd"] (Child p); EvWait p 0]
| bp_target_missing p errno :
    has_nul cmd = false ->
    BuildProcess_run cmd (Raised (OSError errno cmd))
      [notice cmd; EvExec "pwd" ["pwd"] (Child p); EvWait p 0;
       EvExec cmd [cmd] (ExecFailed errno)]
| bp_target_ran p q rc :
    has_nul cmd = false ->
    BuildProcess_run cmd (Returned tt)
      [notice cmd; EvExec "pwd" ["pwd"] (Child p); EvWait p 0;
       EvExec cmd [cmd] (Child q); EvWait q rc].

(** A program that ends after at most [n] requests, whatever the answers. *)
Inductive halts_within {A : Type} : nat -> prog A -> Prop :=
| hw_ret n a : halts_within n (Ret a)
| hw_raise n e : halts_within n (Raise e)
| hw_write n s k : halts_within n k -> halts_within (S n) (Write s k)
| hw_exec n x v k :
    (forall r, halts_within n (k r)) -> halts_within (S n) (ForkExec x v k)
| hw_wait n p k :
    (forall rc, halts_within n (k rc)) -> halts_within (S n) (WaitPid p k).

(** The schedule that gives each of [n] batches, one after the other,
    [k] moves. *)
Definition one_by_one (n k : nat) : list nat :=
  flat_map (fun i => repeat i k) (seq 0 n).

(** The executions of command line [cmd] in the trace of a [map] call,
    whichever batch asked for them, and the notices written for it. *)
Definition is_exec_of (cmd : string) (ev : event) : bool :=
  match ev with
  | EvExec x _ _ => String.eqb x cmd
  | _ => false
  end.

Definition is_notice_of (cmd : string) (ev : event) : bool :=
  match ev with
  | EvWrite s => String.eqb s ("BUILDING " ++ cmd ++ newline)
  | _ => false
  end.

Definition exec_count (cmd : string) (t : list (nat * event)) : nat :=
  length (filter (is_exec_of cmd) (map snd t)).

Definition notice_count (cmd : string) (t : list (nat * event)) : nat :=
  length (filter (is_notice_of cmd) (map snd t)).

(** The complete runs of one batch [mapstar func x]: the items run in
    order, each to its end, and the first exception ends the batch. *)
Inductive mapstar_run {A B : Type} (func : A -> prog B)
  : list A -> outcome (list B) -> list event -> Prop :=
| ms_nil : mapstar_run func [] (Returned []) []
| ms_raised a x t e :
    reach (func a) t (Raise e) ->
    mapstar_run func (a :: x) (Raised e) t
| ms_returned a x t1 b t2 o :
    reach (func a) t1 (Ret b) ->
    mapstar_run func x o t2 ->
    mapstar_run func (a :: x)
      match o with
      | Returned bs => Returned (b :: bs)
      | Raised e => Raised e
      end
      (t1 ++ t2).

(** Where a batch stands, as a program. *)
Definition task_prog {B : Type} (t : task B) : prog (list B) :=
  match t with
  | Running c => c
  | Done o => halted o
  end.

Definition task_halts_within {B : Type} (n : nat) (t : task B) : Prop :=
  halts_within n (task_prog t).

(** What every state of a [map] call satisfies.  [init] are the batches
    as they were queued: batch [i] stands where its own requests in the
    trace lead, the stored failure is the exception of a batch that is
    done, and nothing is stored while no batch has failed. *)
Record job_inv {os : OS} {B : Type}
    (init : list (prog (list B))) (j : job os B) : Prop := {
  inv_length : length (j_tasks j) = length init;
  inv_reach : forall i c0 tk,
    nth_error init i = Some c0 ->
    nth_error (j_tasks j) i = Some tk ->
    reach c0 (events_of i (j_trace j)) (task_prog tk);
  inv_failure : forall e,
    j_failure j = Some e ->
    exists i, nth_error (j_tasks j) i = Some (Done (Raised e));
  inv_no_failure :
    j_failure j = None ->
    forall i e, nth_error (j_tasks j) i <> Some (Done (Raised e));
  inv_range : forall i ev,
    In (i, ev) (j_trace j) -> (i < length init)%nat
}.

(** A trace of a [map] call that records no failed [exec]. *)
Definition no_exec_failure (t : list (nat * event)) : Prop :=
  forall i x v errno, ~ In (i, EvExec x v (ExecFailed errno)) t.

(** The outcomes of the body that the handler of [BuildProcess] absorbs:
    a normal return, or an exception of the class it catches. *)
Definition in_caught_class {A : Type} (o : outcome A) : bool :=
  match o with
  | Returned _ => true
  | Raised e => is_CalledProcessError e
  end.

(** The requests [main] has issued when it is over (none if it is not). *)
Definition main_trace (os : OS) (cpu_count : Z) (sched : list nat)
    (w : world os) : list (nat * event) :=
  match main os cpu_count sched w with
  | Some (_, t, _) => t
  | None => []
  end.

(** Requests that put a line on standard output, and requests that
    brought a child into being. *)
Definition is_write (ev : event) : bool :=
  match ev with
  | EvWrite _ => true
  | _ => false
  end.

Definition is_child (ev : event) : bool :=
  match ev with
  | EvExec _ _ (Child _) => true
  | _ => false
  end.

(** * Properties *)

(** ** Programs and their runs *)

Lemma run_reach {os : OS} {A : Type} (c : prog A) (w : world os) :
  reach c (trace_of c w) (halted (result_of c w)).
Proof.
  unfold trace_of, result_of. revert w.
  induction c as [a | e | s k IH | x v k IH | p k IH]; intros w; cbn.
  - constructor.
  - constructor.
  - specialize (IH (os_write os s w)).
    destruct (run k (os_write os s w)) as [[o t] w']. cbn in *.
    now constructor.
  - destruct (os_fork_exec os x v w) as [r w1].
    specialize (IH r w1). destruct (run (k r) w1) as [[o t] w']. cbn in *.
    now constructor.
  - destruct (os_waitpid os p w) as [rc w1].
    specialize (IH rc w1). destruct (run (k rc) w1) as [[o t] w']. cbn in *.
    now constructor.
Qed.

Lemma reach_ended {A : Type} (c : prog A) t c' o :
  ended c = Some o -> reach c t c' -> t = [] /\ c' = c.
Proof.
  intros He Hr. destruct Hr; cbn in He; try discriminate. tauto.
Qed.

(** Every complete run of [BuildProcess] is one of those listed. *)
Lemma reach_BuildProcess cmd t c o :
  reach (BuildProcess cmd) t c -> ended c = Some o -> BuildProcess_run cmd o t.
Proof.
  intros Hr He. unfold BuildProcess, BuildProcess_body, check_call,
    check_call_kw, call, Popen, print in Hr. cbn in Hr.
  inversion Hr; subst; clear Hr; [discriminate He|].
  match goal with H : reach _ _ _ |- _ => inversion H; subst; clear H end;
    [discriminate He|].
  destruct r as [errno | p]; cbn in *.
  - match goal with H : reach _ _ _ |- _ => inversion H; subst; clear H end.
    cbn in He. injection He as <-. apply bp_diagnostic_missing.
  - match goal with H : reach _ _ _ |- _ => inversion H; subst; clear H end;
      [discriminate He|].
    destruct (Z.eqb_spec rc 0) as [-> | Hrc]; cbn in *.
    + rewrite orb_false_r in *. destruct (has_nul cmd) eqn:Hnul; cbn in *.
      * match goal with H : reach _ _ _ |- _ => inversion H; subst; clear H end.
        cbn in He. injection He as <-. now apply bp_target_refused.
      * match goal with H : reach _ _ _ |- _ => inversion H; subst; clear H end;
          [discriminate He|].
        destruct r as [errno | q]; cbn in *.
        -- match goal with H : reach _ _ _ |- _ => inversion H; subst; clear H end.
           cbn in He. injection He as <-. now apply bp_target_missing.
        -- match goal with H : reach _ _ _ |- _ => inversion H; subst; clear H end;
             [discriminate He|].
           destruct (rc =? 0);
           match goal with H : reach _ _ _ |- _ => inversion H; subst; clear H end;
           cbn in He; injection He as <-; now apply bp_target_ran.
    + match goal with H : reach _ _ _ |- _ => inversion H; subst; clear H end.
      cbn in He. injection He as <-. now apply bp_diagnostic_failed.
Qed.

Lemma ended_halted {A : Type} (o : outcome A) : ended (halted o) = Some o.
Proof. now destruct o. Qed.

Lemma BuildProcess_run_cases {os : OS} cmd (w : world os) :
  BuildProcess_run cmd (result_of (BuildProcess cmd) w)
                       (trace_of (BuildProcess cmd) w).
Proof.
  eapply reach_BuildProcess; [apply run_reach | apply ended_halted].
Qed.

Lemma run_try_except {os : OS} {A : Type} (c : prog A) h (w : world os) :
  run (try_except c h) w =
  let '(o, t, w1) := run c w in
  match o with
  | Returned a => (Returned a, t, w1)
  | Raised e => let '(o2, t2, w2) := run (h e) w1 in (o2, t ++ t2, w2)
  end.
Proof.
  revert w. induction c as [a | e | s k IH | x v k IH | p k IH]; intros w; cbn.
  - reflexivity.
  - now destruct (run (h e) w) as [[o2 t2] w2].
  - rewrite IH. destruct (run k (os_write os s w)) as [[[a | e] t] w1];
      [reflexivity|]. now destruct (run (h e) w1) as [[o2 t2] w2].
  - destruct (os_fork_exec os x v w) as [r w0]. rewrite IH.
    destruct (run (k r) w0) as [[[a | e] t] w1]; [reflexivity|].
    now destruct (run (h e) w1) as [[o2 t2] w2].
  - destruct (os_waitpid os p w) as [rc w0]. rewrite IH.
    destruct (run (k rc) w0) as [[[a | e] t] w1]; [reflexivity|].
    now destruct (run (h e) w1) as [[o2 t2] w2].
Qed.

(** A run in which [Popen] refuses a command that holds no NUL byte. *)
Ltac refused_no_nul :=
  match goal with
  | H : has_nul _ = true |- _ => vm_compute in H; discriminate H
  end.

(** Case analysis on the complete run of [BuildProcess cmd] from [w]. *)
Ltac bp_cases cmd w :=
  generalize (BuildProcess_run_cases cmd w);
  generalize (result_of (BuildProcess cmd) w);
  generalize (trace_of (BuildProcess cmd) w);
  let t := fresh "t" in let o := fresh "o" in let H := fresh "H" in
  intros t o H; destruct H.

(** ** The size of the pool *)

(** C1, as stated, fails at its boundary case: with one detected processor
    the script asks the constructor for [1 - 1 = 0] processes, which it
    refuses; there is no pool of [max(1, 0) = 1] worker. *)
Lemma worker_count_single_core :
  worker_count 1 = Raised (ValueError "Number of processes must be at least 1")
  /\ worker_count 1 <> Returned (Z.max 1 (1 - 1)).
Proof. split; [reflexivity | discriminate]. Qed.

(** C1, amended: from two detected processors on, the pool has
    [cpu_count - 1] workers, which is [max(1, cpu_count - 1)] there. *)
Theorem worker_count_spec (cpu_count : Z) :
  2 <= cpu_count ->
  worker_count cpu_count = Returned (cpu_count - 1)
  /\ cpu_count - 1 = Z.max 1 (cpu_count - 1).
Proof.
  intros H. unfold worker_count, Pool.
  destruct (Z.ltb_spec (cpu_count - 1) 1); [lia|].
  split; [reflexivity | lia].
Qed.

Lemma worker_count_spec_witness :
  2 <= 4 /\ worker_count 4 = Returned (4 - 1) /\ 4 - 1 = Z.max 1 (4 - 1).
Proof. split; [lia | apply (worker_count_spec 4); lia]. Defined.

(** ** One worker call *)

(** C2: when the child that executes the command exits with a status other
    than zero, [BuildProcess] returns normally. *)
Theorem BuildProcess_nonzero_exit_returns
    (os : OS) (cmd : string) (w : world os) (p : pid) (rc : Z) :
  In (EvExec cmd [cmd] (Child p)) (trace_of (BuildProcess cmd) w) ->
  In (EvWait p rc) (trace_of (BuildProcess cmd) w) ->
  rc <> 0 ->
  result_of (BuildProcess cmd) w = Returned tt.
Proof.
  bp_cases cmd w; intros Hexec Hwait Hrc; try reflexivity; exfalso;
    cbn in Hwait; unfold notice in Hwait;
    repeat (destruct Hwait as [Hw | Hwait];
            [try discriminate Hw; injection Hw as _ Hz; congruence |]);
    exact Hwait.
Qed.

Lemma BuildProcess_nonzero_exit_returns_witness :
  result_of (os := any_host 1) (BuildProcess "false") boot = Returned tt.
Proof.
  apply (BuildProcess_nonzero_exit_returns (any_host 1) "false" boot 101 1).
  - vm_compute. tauto.
  - vm_compute. tauto.
  - discriminate.
Defined.

(** C3: the second hardcoded command, the one with the dangling [&& &&],
    evaluated on the ordinary POSIX host.  No shell ever sees the string:
    it is looked up as the name of a program, the [exec] fails with
    [ENOENT], and the [FileNotFoundError] is not a [CalledProcessError], so
    it leaves [BuildProcess] instead of being swallowed. *)
Theorem malformed_command_escapes :
  nth_error commands 1 = Some "pushd ../web_app && npm run build &&  && popd"
  /\ run (os := posix_host)
         (BuildProcess "pushd ../web_app && npm run build &&  && popd") boot
     = (Raised (FileNotFoundError "pushd ../web_app && npm run build &&  && popd"),
        [ notice "pushd ../web_app && npm run build &&  && popd";
          EvExec "pwd" ["pwd"] (Child 100);
          EvWait 100 0;
          EvExec "pushd ../web_app && npm run build &&  && popd"
                 ["pushd ../web_app && npm run build &&  && popd"]
                 (ExecFailed ENOENT) ],
        (101, [])).
Proof. split; reflexivity. Qed.

(** C4: what [BuildProcess] hands to [exec] is never a shell.  On every
    host and for every command, each program it starts is named by a whole
    string ([pwd], or the command line itself) and receives that string as
    its only argument; [/bin/sh -c] is never requested.  On the ordinary
    POSIX host the first hardcoded command therefore names no program. *)
Theorem target_not_run_by_shell (os : OS) (cmd : string) (w : world os) :
  existsb is_shell_exec (trace_of (BuildProcess cmd) w) = false
  /\ (forall x v r, In (EvExec x v r) (trace_of (BuildProcess cmd) w) ->
        v = [x] /\ (x = "pwd" \/ x = cmd))
  /\ result_of (os := posix_host)
       (BuildProcess "cp -R dist ../electron_app/dist/renderer") boot
     = Raised (FileNotFoundError "cp -R dist ../electron_app/dist/renderer").
Proof.
  split; [| split; [| reflexivity]].
  - bp_cases cmd w; reflexivity.
  - bp_cases cmd w; intros x v r Hin; cbn in Hin; unfold notice in Hin;
      repeat (destruct Hin as [Hin | Hin];
              [ try discriminate Hin; injection Hin as <- <- _; tauto |]);
      destruct Hin.
Qed.

(** C5, as stated, fails: the exit status of the diagnostic decides whether
    the target runs.  Two hosts that differ only in the status of [pwd]:
    where it is 0 the target is handed to [exec] once, where it is 1 the
    target is never attempted. *)
Lemma diagnostic_status_decides_target :
  diagnostic_status (trace_of (os := any_host 0) (BuildProcess "true") boot) = Some 0
  /\ target_attempts (trace_of (os := any_host 0) (BuildProcess "true") boot) = 1%nat
  /\ diagnostic_status (trace_of (os := lost_cwd_host) (BuildProcess "true") boot) = Some 1
  /\ target_attempts (trace_of (os := lost_cwd_host) (BuildProcess "true") boot) = 0%nat.
Proof. repeat split. Qed.

(** C5, amended: the value [check_call("pwd")] returns is dropped, its
    exit status is not.  The target is attempted (once) exactly when the
    diagnostic ran and exited with status 0 and the command is one [Popen]
    accepts (it holds no NUL byte), and not at all otherwise; a diagnostic
    that exits with another status is swallowed by the handler, and
    [BuildProcess] returns normally without running the target. *)
Theorem diagnostic_gates_target (os : OS) (cmd : string) (w : world os) :
  (target_attempts (trace_of (BuildProcess cmd) w) = 1%nat
     <-> diagnostic_status (trace_of (BuildProcess cmd) w) = Some 0
         /\ has_nul cmd = false)
  /\ (target_attempts (trace_of (BuildProcess cmd) w) = 0%nat
     <-> diagnostic_status (trace_of (BuildProcess cmd) w) <> Some 0
         \/ has_nul cmd = true)
  /\ (forall rc,
        diagnostic_status (trace_of (BuildProcess cmd) w) = Some rc ->
        rc <> 0 ->
        result_of (BuildProcess cmd) w = Returned tt
        /\ step3_events (trace_of (BuildProcess cmd) w) = []).
Proof.
  bp_cases cmd w; cbn; (split; [| split]);
    try (intros rc0 [= <-] Hrc; try congruence; split; reflexivity);
    try (intros rc0 [=]);
    split; intros; try discriminate; try reflexivity; try tauto;
    try (left; congruence); try (split; congruence);
    try (intuition congruence).
Qed.

(** C6: the handler of [BuildProcess] catches one class and no other.
    Whatever the body raises is swallowed when it is a [CalledProcessError]
    (a child that exited with a status other than zero) and leaves
    [BuildProcess] unchanged otherwise; the handler itself does nothing
    that can be observed.  In particular a program that cannot be started
    surfaces as the [OSError] of the failed [exec]. *)
Theorem only_CalledProcessError_is_caught
    (os : OS) (cmd : string) (w : world os) (e : exn) :
  result_of (BuildProcess_body cmd) w = Raised e ->
  result_of (BuildProcess cmd) w
    = (if is_CalledProcessError e then Returned tt else Raised e)
  /\ trace_of (BuildProcess cmd) w = trace_of (BuildProcess_body cmd) w
  /\ (forall x v errno,
        In (EvExec x v (ExecFailed errno)) (trace_of (BuildProcess cmd) w) ->
        result_of (BuildProcess cmd) w = Raised (OSError errno x)).
Proof.
  intros Hbody. split; [| split].
  - unfold result_of in *. unfold BuildProcess. cbn [catch Exc_prog].
    rewrite run_try_except.
    destruct (run (BuildProcess_body cmd) w) as [[o t] w1]. cbn in Hbody.
    subst o. now destruct e.
  - unfold trace_of, result_of in *. unfold BuildProcess. cbn [catch Exc_prog].
    rewrite run_try_except.
    destruct (run (BuildProcess_body cmd) w) as [[o t] w1]. cbn in Hbody.
    subst o. destruct e; cbn; apply app_nil_r.
  - clear Hbody. bp_cases cmd w; intros x v errno0 Hin; cbn in Hin;
      unfold notice in Hin;
      repeat (destruct Hin as [Hin | Hin];
              [ try discriminate Hin; injection Hin as <- _ <-; reflexivity |]);
      destruct Hin.
Qed.

Lemma only_CalledProcessError_is_caught_witness :
  result_of (os := posix_host) (BuildProcess "true") boot
    = Raised (FileNotFoundError "true")
  /\ trace_of (os := posix_host) (BuildProcess "true") boot
     = trace_of (os := posix_host) (BuildProcess_body "true") boot.
Proof.
  destruct (only_CalledProcessError_is_caught posix_host "true" boot
              (FileNotFoundError "true")) as [H1 [H2 _]].
  - reflexivity.
  - split; [exact H1 | exact H2].
Defined.

(** C8, as stated, fails: the worker does not always perform its three
    steps.  On the host whose working directory is gone the diagnostic
    exits with status 1, and the worker ends after step 2: the first
    hardcoded command is never handed to [exec]. *)
Lemma worker_stops_after_diagnostic :
  trace_of (os := lost_cwd_host)
    (BuildProcess "cp -R dist ../electron_app/dist/renderer") boot
  = [ notice "cp -R dist ../electron_app/dist/renderer";
      EvExec "pwd" ["pwd"] (Child 100);
      EvWait 100 1 ]
  /\ step3_events
       (trace_of (os := lost_cwd_host)
          (BuildProcess "cp -R dist ../electron_app/dist/renderer") boot)
     = []
  /\ result_of (os := lost_cwd_host)
       (BuildProcess "cp -R dist ../electron_app/dist/renderer") boot
     = Returned tt.
Proof. repeat split. Qed.

(** C8, amended: the steps the worker performs come in their order, and
    the third is performed exactly when the second succeeded.  In every
    run of [BuildProcess cmd] the first event is the notice, which names
    the command; what follows first is the diagnostic ([pwd], then the
    wait for it); whatever comes after belongs to the target, which starts
    only after the diagnostic has been waited for and has exited with
    status 0.  When it has, and [Popen] accepts the command, the target is
    executed: it is handed to [exec] with the command line as its only
    argument and, once started, waited for, and nothing follows.  No child
    is created before the notice has been written. *)
Theorem BuildProcess_steps_in_order (os : OS) (cmd : string) (w : world os) :
  step1_events (trace_of (BuildProcess cmd) w) = [notice cmd]
  /\ (exists r, hd_error (step2_events (trace_of (BuildProcess cmd) w))
                = Some (EvExec "pwd" ["pwd"] r))
  /\ Forall (fun ev => (exists r, ev = EvExec cmd [cmd] r)
                       \/ (exists q rc, ev = EvWait q rc))
            (step3_events (trace_of (BuildProcess cmd) w))
  /\ (step3_events (trace_of (BuildProcess cmd) w) <> [] ->
      exists p r, step2_events (trace_of (BuildProcess cmd) w)
                  = [EvExec "pwd" ["pwd"] (Child p); EvWait p 0]
               /\ hd_error (step3_events (trace_of (BuildProcess cmd) w))
                  = Some (EvExec cmd [cmd] r))
  /\ (diagnostic_status (trace_of (BuildProcess cmd) w) = Some 0 ->
      has_nul cmd = false ->
      (exists errno, step3_events (trace_of (BuildProcess cmd) w)
                     = [EvExec cmd [cmd] (ExecFailed errno)])
      \/ (exists q rc, step3_events (trace_of (BuildProcess cmd) w)
                       = [EvExec cmd [cmd] (Child q); EvWait q rc]))
  /\ (forall t1 ev t2,
        trace_of (BuildProcess cmd) w = t1 ++ ev :: t2 ->
        is_exec ev = true -> In (notice cmd) t1).
Proof.
  assert (Hsplit : forall (a : event) l t1 ev t2,
             a :: l = t1 ++ ev :: t2 -> is_exec ev = true ->
             is_exec a = false -> In a t1).
  { intros a l [| b t1] ev t2 Heq Hev Ha; cbn in Heq; injection Heq as -> _.
    - congruence.
    - now left. }
  bp_cases cmd w; cbn; repeat split; eauto;
    try (intros t1 ev t2 Heq Hev; eapply Hsplit; eauto; reflexivity);
    try (intros Hne; congruence);
    try (intros Hd Hnul; congruence);
    try (intros Hd Hnul; injection Hd as Hd; congruence).
  constructor; [left; eauto | constructor; [right; eauto | constructor]].
Qed.

Lemma BuildProcess_steps_in_order_witness :
  (exists errno,
     step3_events (trace_of (os := any_host 0) (BuildProcess "true") boot)
     = [EvExec "true" ["true"] (ExecFailed errno)])
  \/ (exists q rc,
        step3_events (trace_of (os := any_host 0) (BuildProcess "true") boot)
        = [EvExec "true" ["true"] (Child q); EvWait q rc]).
Proof.
  apply (proj1 (proj2 (proj2 (proj2 (proj2
           (BuildProcess_steps_in_order (any_host 0) "true" boot)))))).
  - reflexivity.
  - reflexivity.
Defined.

(** ** Lists, traces and batches *)

Lemma set_nth_length {X : Type} (l : list X) i x :
  length (set_nth l i x) = length l.
Proof.
  revert i. induction l as [| y l IH]; intros [| i]; cbn; auto.
Qed.

Lemma nth_error_set_nth_same {X : Type} (l : list X) i x y :
  nth_error l i = Some y -> nth_error (set_nth l i x) i = Some x.
Proof.
  revert i. induction l as [| z l IH]; intros [| i]; cbn; try discriminate; auto.
Qed.

Lemma nth_error_set_nth_other {X : Type} (l : list X) i k x :
  k <> i -> nth_error (set_nth l i x) k = nth_error l k.
Proof.
  revert i k. induction l as [| z l IH]; intros [| i] [| k] H; cbn; auto.
  congruence.
Qed.

Lemma Forall_set_nth {X : Type} (P : X -> Prop) (l : list X) i x :
  Forall P l -> P x -> Forall P (set_nth l i x).
Proof.
  intros Hl Hx. revert i. induction Hl as [| y l Hy Hl IH]; intros [| i]; cbn;
    constructor; auto.
Qed.

Lemma nth_error_Forall2 {X Y : Type} (R : X -> Y -> Prop) (l1 : list X) :
  forall l2 : list Y,
  length l1 = length l2 ->
  (forall i a b, nth_error l1 i = Some a -> nth_error l2 i = Some b -> R a b) ->
  Forall2 R l1 l2.
Proof.
  induction l1 as [| a l1 IH]; intros [| b l2] Hlen H; cbn in Hlen;
    try discriminate; constructor.
  - apply (H 0%nat); reflexivity.
  - apply IH; [congruence|]. intros i. apply (H (S i)).
Qed.

Lemma events_of_app i t1 t2 :
  events_of i (t1 ++ t2) = events_of i t1 ++ events_of i t2.
Proof. unfold events_of. now rewrite filter_app, map_app. Qed.

Lemma events_of_snoc_same i t ev :
  events_of i (t ++ [(i, ev)]) = events_of i t ++ [ev].
Proof.
  rewrite events_of_app. unfold events_of at 2. cbn.
  now rewrite Nat.eqb_refl.
Qed.

Lemma events_of_snoc_other i k t ev :
  k <> i -> events_of k (t ++ [(i, ev)]) = events_of k t.
Proof.
  intros H. rewrite events_of_app. unfold events_of at 2. cbn.
  destruct (Nat.eqb_spec i k); [congruence|]. apply app_nil_r.
Qed.

Lemma events_of_out_of_range i n t :
  (forall k ev, In (k, ev) t -> (k < n)%nat) -> (n <= i)%nat ->
  events_of i t = [].
Proof.
  intros H Hi. unfold events_of.
  induction t as [| [k ev] t IH]; cbn; [reflexivity|].
  destruct (Nat.eqb_spec k i) as [-> | Hk].
  - exfalso. specialize (H i ev (or_introl eq_refl)). lia.
  - apply IH. intros k' ev' Hin. apply (H k' ev'). now right.
Qed.

Lemma reach_snoc {os : OS} {A : Type} (c0 c c' : prog A) t ev (w w' : world os) :
  reach c0 t c -> step c w = Some (ev, c', w') -> reach c0 (t ++ [ev]) c'.
Proof.
  intros Hr Hs. induction Hr as [c | s k t c1 Hr IH | x v k r t c1 Hr IH
                                | p k rc t c1 Hr IH]; cbn.
  - destruct c as [a | e | s k | x v k | p k]; cbn in Hs; try discriminate.
    + injection Hs as <- <- _. repeat constructor.
    + destruct (os_fork_exec os x v w) as [r w1]. injection Hs as <- <- _.
      repeat constructor.
    + destruct (os_waitpid os p w) as [rc w1]. injection Hs as <- <- _.
      repeat constructor.
  - constructor. auto.
  - constructor. auto.
  - constructor. auto.
Qed.

Lemma step_None_ended {os : OS} {A : Type} (c : prog A) (w : world os) :
  ended c = None -> step c w <> None.
Proof.
  destruct c as [a | e | s k | x v k | p k]; cbn; try discriminate.
  - now destruct (os_fork_exec os x v w).
  - now destruct (os_waitpid os p w).
Qed.

Lemma ended_task_prog {A : Type} (c : prog A) o :
  ended c = Some o -> c = halted o.
Proof.
  destruct c; cbn; try discriminate; now intros [= <-].
Qed.

(** ** The pool: what every schedule preserves *)

Section PoolFacts.
Context {os : OS} {B : Type}.

Lemma pool_step_inv (init : list (prog (list B))) (j : job os B) i :
  job_inv init j -> job_inv init (pool_step j i).
Proof.
  intros Hinv. unfold pool_step.
  destruct (nth_error (j_tasks j) i) as [[c | o] |] eqn:Hi; try assumption.
  destruct (ended c) as [o |] eqn:He.
  - constructor; cbn [j_world j_trace j_tasks j_failure].
    + rewrite set_nth_length. apply Hinv.
    + intros k c0 tk Hc0 Hk. destruct (Nat.eq_dec k i) as [-> | Hne].
      * rewrite (nth_error_set_nth_same _ _ _ _ Hi) in Hk. injection Hk as <-.
        cbn. rewrite <- (ended_task_prog _ _ He).
        apply (inv_reach _ _ Hinv i c0 (Running c)); auto.
      * rewrite nth_error_set_nth_other in Hk by auto.
        eapply inv_reach; eauto.
    + intros e Hf. destruct (j_failure j) as [e0 |] eqn:Hjf.
      * cbn in Hf. injection Hf as <-.
        destruct (inv_failure _ _ Hinv e0 Hjf) as [k Hk]. exists k.
        destruct (Nat.eq_dec k i) as [-> | Hne]; [congruence|].
        now rewrite nth_error_set_nth_other.
      * destruct o as [a | e1]; cbn in Hf; [discriminate|].
        injection Hf as <-. exists i. eapply nth_error_set_nth_same; eauto.
    + intros Hf k e Hk. destruct (j_failure j) as [e0 |] eqn:Hjf;
        [discriminate Hf|].
      destruct o as [a | e1]; cbn in Hf; [| discriminate].
      destruct (Nat.eq_dec k i) as [-> | Hne].
      * rewrite (nth_error_set_nth_same _ _ _ _ Hi) in Hk. discriminate.
      * rewrite nth_error_set_nth_other in Hk by auto.
        now apply (inv_no_failure _ _ Hinv Hjf k e).
    + apply Hinv.
  - destruct (step c (j_world j)) as [[[ev c'] w'] |] eqn:Hs; [| assumption].
    constructor; cbn [j_world j_trace j_tasks j_failure].
    + rewrite set_nth_length. apply Hinv.
    + intros k c0 tk Hc0 Hk. destruct (Nat.eq_dec k i) as [-> | Hne].
      * rewrite (nth_error_set_nth_same _ _ _ _ Hi) in Hk. injection Hk as <-.
        cbn. rewrite events_of_snoc_same. eapply reach_snoc; eauto.
        apply (inv_reach _ _ Hinv i c0 (Running c)); auto.
      * rewrite nth_error_set_nth_other in Hk by auto.
        rewrite events_of_snoc_other by auto. eapply inv_reach; eauto.
    + intros e Hf. destruct (inv_failure _ _ Hinv e Hf) as [k Hk]. exists k.
      destruct (Nat.eq_dec k i) as [-> | Hne]; [congruence|].
      now rewrite nth_error_set_nth_other.
    + intros Hf k e Hk. destruct (Nat.eq_dec k i) as [-> | Hne].
      * rewrite (nth_error_set_nth_same _ _ _ _ Hi) in Hk. discriminate.
      * rewrite nth_error_set_nth_other in Hk by auto.
        now apply (inv_no_failure _ _ Hinv Hf k e).
    + intros k ev' Hin. apply in_app_or in Hin. destruct Hin as [Hin | Hin].
      * eapply inv_range; eauto.
      * destruct Hin as [[= <- <-] | []].
        rewrite <- (inv_length _ _ Hinv). apply nth_error_Some. congruence.
Qed.

Lemma sched_run_inv (init : list (prog (list B))) sched :
  forall j : job os B, job_inv init j -> job_inv init (sched_run j sched).
Proof.
  induction sched as [| i sched IH]; intros j Hinv; cbn; [assumption|].
  apply IH. now apply pool_step_inv.
Qed.

Lemma sched_run_app (j : job os B) s1 s2 :
  sched_run j (s1 ++ s2) = sched_run (sched_run j s1) s2.
Proof. apply fold_left_app. Qed.

End PoolFacts.

(** ** Batches *)

(** A complete run of [c >>= f]: [c] raised, or [c] returned and [f] ran. *)
Lemma reach_pbind_ended {A B : Type} (c : prog A) (f : A -> prog B) :
  forall t c' o,
  reach (pbind c f) t c' -> ended c' = Some o ->
  (exists e, reach c t (Raise e) /\ o = Raised e)
  \/ (exists a t1 t2, t = t1 ++ t2 /\ reach c t1 (Ret a) /\ reach (f a) t2 c').
Proof.
  induction c as [a | e | s k IH | x v k IH | p k IH]; intros t c' o Hr He;
    cbn in Hr.
  - right. exists a, [], t. repeat split; [constructor | assumption].
  - left. exists e. inversion Hr; subst. cbn in He. injection He as <-.
    split; [constructor | reflexivity].
  - inversion Hr; subst; [discriminate He|].
    match goal with H : reach (pbind _ _) _ _ |- _ =>
      destruct (IH _ _ _ H He) as [(e & H1 & ->) | (a & t1 & t2 & -> & H1 & H2)]
    end.
    + left. exists e. split; [now constructor | reflexivity].
    + right. exists a, (EvWrite s :: t1), t2.
      repeat split; [now constructor | assumption].
  - inversion Hr; subst; [discriminate He|].
    match goal with H : reach (pbind _ _) _ _ |- _ =>
      destruct (IH _ _ _ _ H He) as [(e & H1 & ->) | (a & t1 & t2 & -> & H1 & H2)]
    end.
    + left. exists e. split; [now constructor | reflexivity].
    + right. exists a, (EvExec x v r :: t1), t2.
      repeat split; [now constructor | assumption].
  - inversion Hr; subst; [discriminate He|].
    match goal with H : reach (pbind _ _) _ _ |- _ =>
      destruct (IH _ _ _ _ H He) as [(e & H1 & ->) | (a & t1 & t2 & -> & H1 & H2)]
    end.
    + left. exists e. split; [now constructor | reflexivity].
    + right. exists a, (EvWait p rc :: t1), t2.
      repeat split; [now constructor | assumption].
Qed.

(** Every complete run of a batch is a [mapstar_run]. *)
Lemma reach_mapstar {A B : Type} (func : A -> prog B) (x : list A) :
  forall t c o,
  reach (mapstar func x) t c -> ended c = Some o -> mapstar_run func x o t.
Proof.
  induction x as [| a x IH]; intros t c o Hr He.
  - cbn in Hr. inversion Hr; subst. cbn in He. injection He as <-. constructor.
  - cbn in Hr.
    destruct (reach_pbind_ended _ _ _ _ _ Hr He)
      as [(e & H1 & ->) | (b & t1 & t2 & -> & H1 & H2)].
    + now constructor.
    + destruct (reach_pbind_ended _ _ _ _ _ H2 He)
        as [(e & H3 & ->) | (bs & t3 & t4 & -> & H3 & H4)].
      * apply (ms_returned func a x t1 b t2 (Raised e) H1).
        eapply IH; [exact H3 | reflexivity].
      * inversion H4; subst. cbn in He. injection He as <-.
        rewrite app_nil_r.
        apply (ms_returned func a x t1 b t3 (Returned bs) H1).
        eapply IH; [exact H3 | reflexivity].
Qed.

Lemma mapstar_run_length {A B : Type} (func : A -> prog B) x l t :
  mapstar_run func x (Returned l) t -> length l = length x.
Proof.
  revert l t. induction x as [| a x IH]; intros l t H; inversion H; subst.
  - reflexivity.
  - destruct o as [bs | e]; [| discriminate].
    match goal with H : Returned _ = Returned _ |- _ => injection H as <- end.
    cbn. f_equal. eauto.
Qed.

Lemma created_app t1 t2 : created (t1 ++ t2) = created t1 ++ created t2.
Proof.
  induction t1 as [| [s | x v [errno | p] | p rc] t1 IH]; cbn; congruence.
Qed.

Lemma waited_app t1 t2 : waited (t1 ++ t2) = waited t1 ++ waited t2.
Proof.
  induction t1 as [| [s | x v r | p rc] t1 IH]; cbn; congruence.
Qed.

Lemma BuildProcess_run_reaps cmd o t :
  BuildProcess_run cmd o t -> created t = waited t.
Proof. intros H. destruct H; reflexivity. Qed.

Lemma BuildProcess_run_raised cmd e t :
  BuildProcess_run cmd (Raised e) t ->
  has_nul cmd = false ->
  exists x v errno, In (EvExec x v (ExecFailed errno)) t.
Proof.
  intros H Hnul. inversion H; subst; try congruence;
    do 3 eexists; cbn; eauto 6.
Qed.

(** A batch of [BuildProcess] calls leaves no child behind, and, when
    [Popen] accepts its commands, fails only where an [exec] failed. *)
Lemma mapstar_BuildProcess_reaps x o t :
  mapstar_run BuildProcess x o t -> created t = waited t.
Proof.
  intros H. induction H as [| a x t e Hr | a x t1 b t2 o Hr Hx IH].
  - reflexivity.
  - eapply BuildProcess_run_reaps, reach_BuildProcess; [exact Hr | reflexivity].
  - rewrite created_app, waited_app, IH. f_equal.
    eapply BuildProcess_run_reaps, reach_BuildProcess; [exact Hr | reflexivity].
Qed.

Lemma mapstar_BuildProcess_raised x o t :
  mapstar_run BuildProcess x o t ->
  (forall a, In a x -> has_nul a = false) ->
  forall e, o = Raised e ->
  exists a v errno, In (EvExec a v (ExecFailed errno)) t.
Proof.
  intros H. induction H as [| a x t e0 Hr | a x t1 b t2 o Hr Hx IH];
    intros Hnul e He.
  - discriminate.
  - eapply BuildProcess_run_raised;
      [eapply reach_BuildProcess; [exact Hr | reflexivity] |].
    apply Hnul. now left.
  - destruct o as [bs | e1]; [discriminate|].
    destruct (IH (fun c Hc => Hnul c (or_intror Hc)) e1 eq_refl)
      as (a0 & v & errno & Hin).
    exists a0, v, errno. apply in_or_app. now right.
Qed.

Lemma mapstar_BuildProcess_single cmd o t :
  mapstar_run BuildProcess [cmd] o t ->
  exists o', BuildProcess_run cmd o' t
             /\ o = match o' with
                    | Returned b => Returned [b]
                    | Raised e => Raised e
                    end.
Proof.
  intros H. inversion H; subst.
  - exists (Raised e). split; [| reflexivity].
    eapply reach_BuildProcess; eauto.
  - match goal with H : mapstar_run _ [] _ _ |- _ => inversion H; subst end.
    rewrite app_nil_r. exists (Returned b). split; [| reflexivity].
    eapply reach_BuildProcess; eauto.
Qed.

(** ** Cutting the iterable *)

Lemma get_tasks_fuel_concat {A : Type} (size : nat) :
  (0 < size)%nat ->
  forall fuel (it : list A),
  (length it <= fuel)%nat -> concat (get_tasks_fuel fuel it size) = it.
Proof.
  intros Hsize. induction fuel as [| fuel IH]; intros it Hlen; cbn.
  - destruct it; [reflexivity | cbn in Hlen; lia].
  - destruct (firstn size it) as [| a x] eqn:Hx.
    + destruct it as [| a it]; [reflexivity|].
      destruct size; [lia | discriminate Hx].
    + cbn [concat]. rewrite <- Hx, IH, firstn_skipn; [reflexivity|].
      rewrite length_skipn. lia.
Qed.

Lemma get_tasks_concat {A : Type} (it : list A) size :
  (0 < size)%nat -> concat (get_tasks it size) = it.
Proof. intros H. now apply get_tasks_fuel_concat. Qed.

Lemma get_tasks_singletons {A : Type} (it : list A) :
  get_tasks it 1 = map (fun a => [a]) it.
Proof.
  unfold get_tasks. induction it as [| a it IH]; cbn; [reflexivity|].
  now rewrite IH.
Qed.

Lemma chunksize_for_pos p len :
  1 <= pool_size p -> 0 < len -> 1 <= chunksize_for p len.
Proof.
  intros Hp Hlen. unfold chunksize_for.
  destruct (Z.eqb_spec len 0); [lia|].
  assert (H4 : 0 < pool_size p * 4) by lia.
  pose proof (Z.div_mod len (pool_size p * 4) ltac:(lia)) as Hdm.
  pose proof (Z.div_pos len (pool_size p * 4) ltac:(lia) H4) as Hq.
  destruct (Z.eqb_spec (len mod (pool_size p * 4)) 0) as [Hz | Hz]; [| lia].
  rewrite Hz in Hdm. nia.
Qed.

Lemma chunksize_for_small p len :
  1 <= pool_size p -> 0 < len <= pool_size p * 4 -> chunksize_for p len = 1.
Proof.
  intros Hp Hlen. unfold chunksize_for.
  destruct (Z.eqb_spec len 0); [lia|].
  destruct (Z.eq_dec len (pool_size p * 4)) as [-> | Hne].
  - rewrite Z.mod_same, Z.div_same by lia. reflexivity.
  - rewrite Z.mod_small, Z.div_small by lia.
    destruct (Z.eqb_spec len 0); [lia | reflexivity].
Qed.

Lemma task_batches_concat {A : Type} p (it : list A) :
  1 <= pool_size p -> concat (task_batches p it) = it.
Proof.
  intros Hp. unfold task_batches. destruct it as [| a it]; [reflexivity|].
  apply get_tasks_concat.
  pose proof (chunksize_for_pos p (Z.of_nat (length (a :: it))) Hp) as H.
  cbn [length] in *. lia.
Qed.

Lemma task_batches_small {A : Type} p (it : list A) :
  1 <= pool_size p -> Z.of_nat (length it) <= pool_size p * 4 ->
  task_batches p it = map (fun a => [a]) it.
Proof.
  intros Hp Hlen. destruct it as [| a it]; [reflexivity|].
  unfold task_batches. rewrite chunksize_for_small; auto.
  - apply get_tasks_singletons.
  - cbn [length] in *. lia.
Qed.

(** ** A [map] call from its start *)

Section MapCall.
Context {os : OS} {A B : Type}.
Variables (p : pool) (func : A -> prog B) (iterable : list A).

Lemma map_async_inv (w : world os) :
  job_inv (map (mapstar func) (task_batches p iterable))
          (map_async p func iterable w).
Proof.
  constructor; cbn.
  - now rewrite !length_map.
  - intros i c0 tk H0 Hk. rewrite nth_error_map in H0, Hk.
    destruct (nth_error (task_batches p iterable) i) as [x |]; [| discriminate].
    cbn in H0, Hk. injection H0 as <-. injection Hk as <-. constructor.
  - discriminate.
  - intros _ i e Hk. rewrite nth_error_map in Hk.
    destruct (nth_error (task_batches p iterable) i); discriminate.
  - intros i ev [].
Qed.

(** When [map] has its result every batch has run to its end, along the
    requests the trace records for it. *)
Lemma map_get_batches sched (w : world os) o :
  map_get (sched_run (map_async p func iterable w) sched) = Some o ->
  forall i x,
  nth_error (task_batches p iterable) i = Some x ->
  exists oi,
    nth_error (j_tasks (sched_run (map_async p func iterable w) sched)) i
      = Some (Done oi)
    /\ mapstar_run func x oi
         (events_of i (j_trace (sched_run (map_async p func iterable w) sched))).
Proof.
  intros Hget i x Hx.
  pose proof (sched_run_inv _ sched _ (map_async_inv w)) as Hinv.
  set (j := sched_run (map_async p func iterable w) sched) in *.
  unfold map_get in Hget.
  destruct (forallb is_done (j_tasks j)) eqn:Hall; [| discriminate].
  assert (Hi : (i < length (j_tasks j))%nat).
  { rewrite (inv_length _ _ Hinv), length_map. apply nth_error_Some. congruence. }
  destruct (nth_error (j_tasks j) i) as [tk |] eqn:Hk;
    [| apply nth_error_None in Hk; lia].
  rewrite forallb_forall in Hall.
  pose proof (Hall tk (nth_error_In _ _ Hk)) as Hd.
  destruct tk as [c | oi]; [discriminate|]. exists oi. split; [reflexivity|].
  eapply reach_mapstar; [| apply ended_halted].
  apply (inv_reach _ _ Hinv i (mapstar func x) (Done oi)); [| exact Hk].
  rewrite nth_error_map, Hx. reflexivity.
Qed.

End MapCall.

(** ** The pool: every schedule can be completed *)

Lemma halts_within_mono {A : Type} (c : prog A) n :
  halts_within n c -> forall m, (n <= m)%nat -> halts_within m c.
Proof.
  induction 1 as [n a | n e | n s k Hk IH | n x v k Hk IH | n p k Hk IH];
    intros m Hm; try constructor.
  - destruct m as [| m]; [lia|]. constructor. apply IH. lia.
  - destruct m as [| m]; [lia|]. constructor. intros r. apply IH. lia.
  - destruct m as [| m]; [lia|]. constructor. intros rc. apply IH. lia.
Qed.

Lemma halts_within_step {os : OS} {A : Type} (c c' : prog A) n ev (w w' : world os) :
  halts_within n c -> step c w = Some (ev, c', w') ->
  exists m, n = S m /\ halts_within m c'.
Proof.
  intros H Hs. destruct H as [n a | n e | n s k Hk | n x v k Hk | n p k Hk];
    cbn in Hs; try discriminate.
  - injection Hs as _ <- _. eauto.
  - destruct (os_fork_exec os x v w) as [r w1]. injection Hs as _ <- _. eauto.
  - destruct (os_waitpid os p w) as [rc w1]. injection Hs as _ <- _. eauto.
Qed.

Lemma halts_within_pbind {A B : Type} (c : prog A) (f : A -> prog B) n m :
  halts_within n c -> (forall a, halts_within m (f a)) ->
  halts_within (n + m) (pbind c f).
Proof.
  intros Hc Hf.
  induction Hc as [n a | n e | n s k Hk IH | n x v k Hk IH | n p k Hk IH]; cbn.
  - apply (halts_within_mono _ m); [apply Hf | lia].
  - constructor.
  - constructor. exact IH.
  - constructor. exact IH.
  - constructor. exact IH.
Qed.

Lemma halts_within_mapstar {A B : Type} (func : A -> prog B) n (x : list A) :
  (forall a, halts_within n (func a)) ->
  halts_within (length x * n) (mapstar func x).
Proof.
  intros Hf. induction x as [| a x IH]; cbn.
  - constructor.
  - apply halts_within_pbind; [apply Hf|]. intros b.
    replace (length x * n)%nat with (length x * n + 0)%nat by lia.
    apply halts_within_pbind; [exact IH|]. intros bs. constructor.
Qed.

(** [BuildProcess] issues at most five requests. *)
Lemma BuildProcess_halts cmd : halts_within 5 (BuildProcess cmd).
Proof.
  unfold BuildProcess, BuildProcess_body, check_call, check_call_kw, call,
    Popen, print. cbn.
  constructor. constructor. intros [errno | p]; cbn; [constructor|].
  constructor. intros rc. destruct (rc =? 0); cbn; [| constructor].
  destruct (has_nul cmd); cbn; [constructor|].
  constructor. intros [errno | q]; cbn; [constructor|].
  constructor. intros rc2. destruct (rc2 =? 0); cbn; constructor.
Qed.

Section Progress.
Context {os : OS} {B : Type}.

Lemma pool_step_length (j : job os B) i :
  length (j_tasks (pool_step j i)) = length (j_tasks j).
Proof.
  unfold pool_step.
  destruct (nth_error (j_tasks j) i) as [[c | o] |]; try reflexivity.
  destruct (ended c); [apply set_nth_length|].
  destruct (step c (j_world j)) as [[[ev c'] w'] |]; [apply set_nth_length|].
  reflexivity.
Qed.

Lemma sched_run_length sched :
  forall j : job os B,
  length (j_tasks (sched_run j sched)) = length (j_tasks j).
Proof.
  induction sched as [| i sched IH]; intros j; cbn; [reflexivity|].
  rewrite <- (pool_step_length j i). apply IH.
Qed.

Lemma pool_step_done (j : job os B) i k o :
  nth_error (j_tasks j) k = Some (Done o) ->
  nth_error (j_tasks (pool_step j i)) k = Some (Done o).
Proof.
  intros Hk. unfold pool_step.
  destruct (nth_error (j_tasks j) i) as [[c | o'] |] eqn:Hi; try assumption.
  assert (Hne : k <> i) by congruence.
  destruct (ended c); [cbn; now rewrite nth_error_set_nth_other|].
  destruct (step c (j_world j)) as [[[ev c'] w'] |]; [| assumption].
  cbn. now rewrite nth_error_set_nth_other.
Qed.

Lemma sched_run_done sched :
  forall (j : job os B) k o,
  nth_error (j_tasks j) k = Some (Done o) ->
  nth_error (j_tasks (sched_run j sched)) k = Some (Done o).
Proof.
  induction sched as [| i sched IH]; intros j k o Hk; cbn; [assumption|].
  apply IH. now apply pool_step_done.
Qed.

Lemma pool_step_halts n (j : job os B) i :
  Forall (task_halts_within n) (j_tasks j) ->
  Forall (task_halts_within n) (j_tasks (pool_step j i)).
Proof.
  intros H. unfold pool_step.
  destruct (nth_error (j_tasks j) i) as [[c | o] |] eqn:Hi; try assumption.
  pose proof (proj1 (Forall_forall _ _) H _ (nth_error_In _ _ Hi)) as Hc.
  unfold task_halts_within in Hc. cbn in Hc.
  destruct (ended c) as [o |] eqn:He.
  - cbn. apply Forall_set_nth; [assumption|].
    unfold task_halts_within. cbn. now rewrite <- (ended_task_prog _ _ He).
  - destruct (step c (j_world j)) as [[[ev c'] w'] |] eqn:Hs; [| assumption].
    cbn. apply Forall_set_nth; [assumption|].
    destruct (halts_within_step _ _ _ _ _ _ Hc Hs) as (m & -> & Hm).
    unfold task_halts_within. cbn. apply (halts_within_mono _ m); auto.
Qed.

Lemma sched_run_halts n sched :
  forall j : job os B,
  Forall (task_halts_within n) (j_tasks j) ->
  Forall (task_halts_within n) (j_tasks (sched_run j sched)).
Proof.
  induction sched as [| i sched IH]; intros j H; cbn; [assumption|].
  apply IH. now apply pool_step_halts.
Qed.

(** [n + 1] moves bring a batch that halts within [n] requests to [Done]. *)
Lemma drive_task n :
  forall (j : job os B) i tk,
  nth_error (j_tasks j) i = Some tk ->
  task_halts_within n tk ->
  exists o, nth_error (j_tasks (sched_run j (repeat i (S n)))) i = Some (Done o).
Proof.
  induction n as [| n IH]; intros j i tk Hi Htk.
  - destruct tk as [c | o].
    + unfold task_halts_within in Htk. cbn in Htk. cbn. unfold pool_step.
      rewrite Hi. inversion Htk; subst; cbn; eexists;
        eapply nth_error_set_nth_same; eauto.
    + exists o. now apply sched_run_done.
  - destruct tk as [c | o]; [| exists o; now apply sched_run_done].
    unfold task_halts_within in Htk. cbn in Htk.
    change (repeat i (S (S n))) with (i :: repeat i (S n)). cbn [sched_run fold_left].
    change (fold_left pool_step (repeat i (S n)) (pool_step j i))
      with (sched_run (pool_step j i) (repeat i (S n))).
    destruct (ended c) as [o |] eqn:He.
    + exists o. apply sched_run_done. unfold pool_step. rewrite Hi, He. cbn.
      eapply nth_error_set_nth_same; eauto.
    + destruct (step c (j_world j)) as [[[ev c'] w'] |] eqn:Hs;
        [| now apply step_None_ended in Hs].
      destruct (halts_within_step _ _ _ _ _ _ Htk Hs) as (m & [= <-] & Hm).
      apply (IH (pool_step j i) i (Running c')); [| exact Hm].
      unfold pool_step. rewrite Hi, He, Hs. cbn.
      eapply nth_error_set_nth_same; eauto.
Qed.

Lemma one_by_one_from n m :
  forall (j : job os B) start,
  Forall (task_halts_within n) (j_tasks j) ->
  forall i, (start <= i < start + m)%nat -> (i < length (j_tasks j))%nat ->
  exists o,
    nth_error
      (j_tasks (sched_run j (flat_map (fun i => repeat i (S n)) (seq start m)))) i
    = Some (Done o).
Proof.
  induction m as [| m IH]; intros j start Hb i Hi Hlen; [lia|].
  cbn [seq flat_map]. rewrite sched_run_app.
  set (j1 := sched_run j (repeat start (S n))).
  assert (Hb1 : Forall (task_halts_within n) (j_tasks j1))
    by now apply sched_run_halts.
  destruct (Nat.eq_dec i start) as [-> | Hne].
  - destruct (nth_error (j_tasks j) start) as [tk |] eqn:Hk;
      [| apply nth_error_None in Hk; lia].
    destruct (drive_task n j start tk Hk) as [o Ho].
    { exact (proj1 (Forall_forall _ _) Hb _ (nth_error_In _ _ Hk)). }
    exists o. now apply sched_run_done.
  - apply IH; [assumption | lia |].
    unfold j1. now rewrite sched_run_length.
Qed.

Lemma one_by_one_completes n (j : job os B) :
  Forall (task_halts_within n) (j_tasks j) ->
  forallb is_done
    (j_tasks (sched_run j (one_by_one (length (j_tasks j)) (S n)))) = true.
Proof.
  intros Hb. apply forallb_forall. intros tk Hin.
  apply In_nth_error in Hin. destruct Hin as [i Hi].
  assert (Hlt : (i < length (j_tasks j))%nat).
  { rewrite <- (sched_run_length (one_by_one (length (j_tasks j)) (S n)) j).
    apply nth_error_Some. congruence. }
  destruct (one_by_one_from n (length (j_tasks j)) j 0%nat Hb i ltac:(lia) Hlt)
    as [o Ho].
  unfold one_by_one in Hi. rewrite Ho in Hi. now injection Hi as <-.
Qed.

End Progress.

(** ** The [map] call of the script *)

Lemma In_events_of i ev t : In ev (events_of i t) -> In (i, ev) t.
Proof.
  unfold events_of. intros H. apply in_map_iff in H.
  destruct H as ([k ev'] & Hev & Hin). cbn in Hev. subst ev'.
  apply filter_In in Hin. destruct Hin as [Hin Hk]. cbn in Hk.
  apply Nat.eqb_eq in Hk. now subst k.
Qed.

Lemma unit_list_repeat (l : list unit) : l = repeat tt (length l).
Proof. induction l as [| [] l IH]; cbn; congruence. Qed.

Lemma concat_values_length {A B : Type} (batches : list (list A)) :
  forall tasks : list (task B),
  Forall2 (fun x tk => length (task_value tk) = length x) batches tasks ->
  length (concat (map task_value tasks)) = length (concat batches).
Proof.
  intros tasks H. induction H as [| x tk batches tasks Hx H IH]; cbn;
    [reflexivity|].
  rewrite !length_app. congruence.
Qed.

Lemma filter_events_split2 (P : event -> bool) (t : list (nat * event)) :
  (forall k ev, In (k, ev) t -> (k < 2)%nat) ->
  length (filter P (map snd t))
  = (length (filter P (events_of 0 t)) + length (filter P (events_of 1 t)))%nat.
Proof.
  unfold events_of. induction t as [| [k ev] t IH]; intros H; [reflexivity|].
  assert (Hk : (k < 2)%nat) by (apply (H k ev); now left).
  assert (IH' := IH (fun k' ev' Hin => H k' ev' (or_intror Hin))).
  destruct k as [| [| k]]; [| | lia]; cbn; destruct (P ev); cbn; lia.
Qed.

Lemma pool_map_Some {os : OS} {A B : Type} p (func : A -> prog B) iterable
    sched (w : world os) o t w' :
  pool_map p func iterable sched w = Some (o, t, w') ->
  map_get (sched_run (map_async p func iterable w) sched) = Some o
  /\ t = j_trace (sched_run (map_async p func iterable w) sched)
  /\ w' = j_world (sched_run (map_async p func iterable w) sched).
Proof.
  unfold pool_map.
  destruct (map_get (sched_run (map_async p func iterable w) sched));
    [| discriminate].
  intros [= -> <- <-]. auto.
Qed.

(** When a [map] call over [BuildProcess] returns, every child a batch
    created has been waited for by that batch. *)
Lemma pool_map_reaps {os : OS} p cmds sched (w : world os) o t w' :
  pool_map p BuildProcess cmds sched w = Some (o, t, w') ->
  forall i, created (events_of i t) = waited (events_of i t).
Proof.
  intros Hmap i. apply pool_map_Some in Hmap. destruct Hmap as (Hget & -> & _).
  destruct (nth_error (task_batches p cmds) i) as [x |] eqn:Hx.
  - destruct (map_get_batches p BuildProcess cmds sched w o Hget i x Hx)
      as (oi & _ & Hrun).
    eapply mapstar_BuildProcess_reaps; eauto.
  - rewrite (events_of_out_of_range i (length (task_batches p cmds))).
    + reflexivity.
    + intros k ev Hin.
      pose proof (sched_run_inv _ sched _ (map_async_inv p BuildProcess cmds w))
        as Hinv.
      pose proof (inv_range _ _ Hinv k ev Hin) as Hk.
      now rewrite length_map in Hk.
    + now apply nth_error_None.
Qed.

(** Every schedule of a [map] call over [BuildProcess] can be continued to
    one under which the call returns. *)
Lemma pool_map_completes {os : OS} p cmds sched (w : world os) :
  exists more, pool_map p BuildProcess cmds (sched ++ more) w <> None.
Proof.
  assert (Hn : forall batches : list (list string),
             exists n, Forall (fun x => halts_within n (mapstar BuildProcess x))
                              batches).
  { induction batches as [| x batches [n IH]].
    - exists 0%nat. constructor.
    - exists (Nat.max n (length x * 5)). constructor.
      + eapply halts_within_mono;
          [apply halts_within_mapstar, BuildProcess_halts | lia].
      + eapply Forall_impl; [| exact IH].
        intros y Hy. eapply halts_within_mono; [exact Hy | lia]. }
  destruct (Hn (task_batches p cmds)) as [n Hb].
  set (j := sched_run (map_async p BuildProcess cmds w) sched).
  assert (Hj : Forall (task_halts_within n) (j_tasks j)).
  { apply sched_run_halts. cbn. apply Forall_map.
    eapply Forall_impl; [| exact Hb]. intros y Hy. exact Hy. }
  exists (one_by_one (length (j_tasks j)) (S n)).
  unfold pool_map, map_get. rewrite sched_run_app. fold j.
  rewrite (one_by_one_completes n j Hj). discriminate.
Qed.

(** ** The script as a whole *)

Lemma main_no_pool (os : OS) cpu_count sched (w : world os) :
  cpu_count < 2 ->
  main os cpu_count sched w
  = Some (Raised (ValueError "Number of processes must be at least 1"), [], w).
Proof.
  intros H. unfold main, Pool.
  destruct (Z.ltb_spec (cpu_count - 1) 1); [reflexivity | lia].
Qed.

Lemma main_with_pool (os : OS) cpu_count sched (w : world os) o t w' :
  2 <= cpu_count ->
  main os cpu_count sched w = Some (o, t, w') ->
  exists o',
    pool_map {| pool_size := cpu_count - 1 |} BuildProcess commands sched w
    = Some (o', t, w').
Proof.
  intros H. unfold main, Pool.
  destruct (Z.ltb_spec (cpu_count - 1) 1); [lia|].
  destruct (pool_map _ BuildProcess commands sched w) as [[[[l | e] t0] w0] |];
    [| | discriminate]; intros [= <- <- <-]; eauto.
Qed.

(** With a pool, each of the two commands is a batch of its own, and when
    [main] is over the requests of batch [i] are a complete run of
    [BuildProcess] on command [i]. *)
Lemma main_runs_each (os : OS) cpu_count sched (w : world os) o t w' :
  2 <= cpu_count ->
  main os cpu_count sched w = Some (o, t, w') ->
  (forall k ev, In (k, ev) t -> (k < 2)%nat)
  /\ forall i cmd, nth_error commands i = Some cmd ->
     exists oi, BuildProcess_run cmd oi (events_of i t).
Proof.
  intros Hcpu Hmain.
  destruct (main_with_pool os cpu_count sched w o t w' Hcpu Hmain) as [o' Hmap].
  apply pool_map_Some in Hmap. destruct Hmap as (Hget & -> & _).
  set (p := {| pool_size := cpu_count - 1 |}) in *.
  assert (Hbatches : task_batches p commands = map (fun a => [a]) commands).
  { apply task_batches_small; cbn; lia. }
  split.
  - intros k ev Hin.
    pose proof (sched_run_inv _ sched _ (map_async_inv p BuildProcess commands w))
      as Hinv.
    pose proof (inv_range _ _ Hinv k ev Hin) as Hk.
    now rewrite Hbatches in Hk.
  - intros i cmd Hi.
    destruct (map_get_batches p BuildProcess commands sched w o' Hget i [cmd])
      as (oi & _ & Hrun).
    { rewrite Hbatches, nth_error_map, Hi. reflexivity. }
    destruct (mapstar_BuildProcess_single cmd oi _ Hrun) as (oi' & Hbp & _).
    now exists oi'.
Qed.

(** C7, as stated, fails, in two ways.  With one detected processor no
    pool is built and nothing is dispatched.  And a command is not
    attempted when the diagnostic that precedes it exits with a status
    other than zero: on the host whose working directory is gone, with four
    detected processors and the two batches taking turns, [main] returns
    normally and neither command has been handed to [exec]. *)
Lemma commands_not_attempted :
  main posix_host 1 [] boot
    = Some (Raised (ValueError "Number of processes must be at least 1"),
            [], boot)
  /\ match main lost_cwd_host 4 [0; 1; 0; 1; 0; 1; 0; 1]%nat boot with
     | Some (o, t, _) =>
         o = Returned tt
         /\ exec_count "cp -R dist ../electron_app/dist/renderer" t = 0%nat
         /\ exec_count "pushd ../web_app && npm run build &&  && popd" t = 0%nat
     | None => False
     end.
Proof. vm_compute. repeat split. Qed.

(** C7, amended: with at least two detected processors (so that a pool
    exists), when [main] is over each command of the list has had its
    notice written exactly once and has been handed to [exec] at most once,
    by its own batch: once exactly when the diagnostic of that batch exited
    with status 0, and not at all otherwise.  Nothing in this depends on
    what happened to the other command. *)
Theorem each_command_attempted_at_most_once
    (os : OS) (cpu_count : Z) (sched : list nat) (w : world os)
    (o : outcome unit) (t : list (nat * event)) (w' : world os) :
  2 <= cpu_count ->
  main os cpu_count sched w = Some (o, t, w') ->
  forall i cmd, nth_error commands i = Some cmd ->
    notice_count cmd t = 1%nat
    /\ exec_count cmd t = target_attempts (events_of i t)
    /\ (exec_count cmd t <= 1)%nat
    /\ (exec_count cmd t = 1%nat <-> diagnostic_status (events_of i t) = Some 0).
Proof.
  intros Hcpu Hmain i cmd Hi.
  destruct (main_runs_each os cpu_count sched w o t w' Hcpu Hmain)
    as [Hrange Hruns].
  destruct (Hruns 0%nat _ eq_refl) as [o0 H0].
  destruct (Hruns 1%nat _ eq_refl) as [o1 H1].
  unfold notice_count, exec_count. rewrite !(filter_events_split2 _ t Hrange).
  destruct i as [| [| i]]; cbn in Hi; [| | destruct i; discriminate];
    injection Hi as <-;
    revert H0 H1; generalize (events_of 0 t) (events_of 1 t); intros t0 t1 H0 H1;
    destruct H0; destruct H1; try refused_no_nul; vm_compute;
    (repeat split; intros; try congruence; try lia).
Qed.

Lemma each_command_attempted_at_most_once_witness :
  notice_count "cp -R dist ../electron_app/dist/renderer"
    (main_trace (any_host 0) 4 [0; 1; 0; 1; 0; 1; 0; 1; 0; 1; 0; 1]%nat boot)
  = 1%nat
  /\ exec_count "cp -R dist ../electron_app/dist/renderer"
       (main_trace (any_host 0) 4 [0; 1; 0; 1; 0; 1; 0; 1; 0; 1; 0; 1]%nat boot)
     = 1%nat.
Proof.
  destruct (each_command_attempted_at_most_once (any_host 0) 4
              [0; 1; 0; 1; 0; 1; 0; 1; 0; 1; 0; 1]%nat boot (Returned tt)
              (main_trace (any_host 0) 4
                 [0; 1; 0; 1; 0; 1; 0; 1; 0; 1; 0; 1]%nat boot)
              (104, []) ltac:(lia) ltac:(vm_compute; reflexivity)
              0%nat "cp -R dist ../electron_app/dist/renderer" eq_refl)
    as (Hn & _ & _ & Hx).
  split; [exact Hn | apply Hx; vm_compute; reflexivity].
Defined.

(** A [map] call over [BuildProcess], on commands [Popen] accepts, in
    which no [exec] failed returns one [None] per command. *)
Lemma pool_map_returns_all {os : OS} n p cmds sched (w : world os) o t w' :
  Pool n = Returned p ->
  existsb has_nul cmds = false ->
  pool_map p BuildProcess cmds sched w = Some (o, t, w') ->
  no_exec_failure t ->
  o = Returned (repeat tt (length cmds)).
Proof.
  intros Hpool Hnul Hmap Hok.
  assert (Hp : 1 <= pool_size p).
  { unfold Pool in Hpool. destruct (Z.ltb_spec n 1); [discriminate|].
    injection Hpool as <-. cbn. lia. }
  apply pool_map_Some in Hmap. destruct Hmap as (Hget & -> & _).
  pose proof (sched_run_inv _ sched _ (map_async_inv p BuildProcess cmds w))
    as Hinv.
  pose proof (map_get_batches p BuildProcess cmds sched w o Hget) as Hbatches.
  set (j := sched_run (map_async p BuildProcess cmds w) sched) in *.
  assert (Hret : forall i x tk,
             nth_error (task_batches p cmds) i = Some x ->
             nth_error (j_tasks j) i = Some tk ->
             exists l, tk = Done (Returned l) /\ length l = length x).
  { intros i x tk Hx Hk. destruct (Hbatches i x Hx) as (oi & Hk' & Hrun).
    rewrite Hk in Hk'. injection Hk' as ->. destruct oi as [l | e].
    - exists l. split; [reflexivity|]. eapply mapstar_run_length; eauto.
    - exfalso.
      assert (Hx_nul : forall a, In a x -> has_nul a = false).
      { intros a Ha. destruct (has_nul a) eqn:Hna; [| reflexivity].
        rewrite <- Hnul. symmetry. apply existsb_exists. exists a.
        split; [| exact Hna]. rewrite <- (task_batches_concat p cmds Hp).
        apply in_concat. exists x. split; [| exact Ha].
        eapply nth_error_In; eauto. }
      destruct (mapstar_BuildProcess_raised x _ _ Hrun Hx_nul e eq_refl)
        as (a & v & errno & Hin).
      apply In_events_of in Hin. exact (Hok i a v errno Hin). }
  assert (Hlen : length (task_batches p cmds) = length (j_tasks j)).
  { rewrite (inv_length _ _ Hinv). now rewrite length_map. }
  unfold map_get in Hget.
  destruct (forallb is_done (j_tasks j)); [| discriminate].
  destruct (j_failure j) as [e |] eqn:Hf.
  - exfalso. destruct (inv_failure _ _ Hinv e Hf) as [i Hi].
    destruct (nth_error (task_batches p cmds) i) as [x |] eqn:Hx.
    + destruct (Hret i x _ Hx Hi) as (l & Hl & _). discriminate Hl.
    + apply nth_error_None in Hx.
      assert (i < length (j_tasks j))%nat by (apply nth_error_Some; congruence).
      lia.
  - injection Hget as <-. f_equal.
    rewrite (unit_list_repeat (concat (map task_value (j_tasks j)))). f_equal.
    rewrite (concat_values_length (task_batches p cmds)).
    + now rewrite task_batches_concat.
    + apply nth_error_Forall2; [exact Hlen|].
      intros i x tk Hx Hk. destruct (Hret i x tk Hx Hk) as (l & -> & Hl).
      exact Hl.
Qed.

(** C9: [main] is over only when every dispatched command is.  Whenever
    [main] has a result, each child a batch created has been waited for by
    that batch, so none is in flight; with a pool, every batch is done and
    the requests of batch [i] are a complete run of [BuildProcess] on
    command [i]; without one, nothing was dispatched.  And [main] does come
    to an end: whatever has been scheduled so far, the schedule can be
    continued to one under which it returns. *)
Theorem runner_waits_for_all (os : OS) (cpu_count : Z) :
  (forall sched (w : world os) o t w',
     main os cpu_count sched w = Some (o, t, w') ->
     (forall i, created (events_of i t) = waited (events_of i t))
     /\ (2 <= cpu_count ->
         forallb is_done
           (j_tasks (sched_run (map_async {| pool_size := cpu_count - 1 |}
                                          BuildProcess commands w) sched)) = true
         /\ forall i cmd, nth_error commands i = Some cmd ->
            exists oi, BuildProcess_run cmd oi (events_of i t))
     /\ (cpu_count < 2 -> t = []))
  /\ (forall sched (w : world os),
        exists more, main os cpu_count (sched ++ more) w <> None).
Proof.
  split.
  - intros sched w o t w' Hmain. split; [| split].
    + destruct (Z.lt_ge_cases cpu_count 2) as [Hlt | Hge].
      * rewrite (main_no_pool os cpu_count sched w Hlt) in Hmain.
        injection Hmain as _ <- _. reflexivity.
      * destruct (main_with_pool os cpu_count sched w o t w' Hge Hmain)
          as [o' Hmap].
        eapply pool_map_reaps; eauto.
    + intros Hge. split.
      * destruct (main_with_pool os cpu_count sched w o t w' Hge Hmain)
          as [o' Hmap].
        apply pool_map_Some in Hmap. destruct Hmap as (Hget & _).
        unfold map_get in Hget.
        destruct (forallb is_done _); [reflexivity | discriminate].
      * apply (main_runs_each os cpu_count sched w o t w' Hge Hmain).
    + intros Hlt. rewrite (main_no_pool os cpu_count sched w Hlt) in Hmain.
      now injection Hmain as _ <- _.
  - intros sched w. destruct (Z.lt_ge_cases cpu_count 2) as [Hlt | Hge].
    + exists []. rewrite (main_no_pool os cpu_count _ w Hlt). discriminate.
    + destruct (pool_map_completes {| pool_size := cpu_count - 1 |}
                  commands sched w) as [more Hmore].
      exists more. unfold main, Pool.
      destruct (Z.ltb_spec (cpu_count - 1) 1); [lia|].
      destruct (pool_map _ BuildProcess commands (sched ++ more) w)
        as [[[[l | e] t0] w0] |]; [discriminate | discriminate | congruence].
Qed.

Lemma runner_waits_for_all_witness :
  created (events_of 1
    (main_trace (any_host 3) 4 [0; 1; 0; 1; 0; 1; 0; 1; 0; 1; 0; 1]%nat boot))
  = waited (events_of 1
    (main_trace (any_host 3) 4 [0; 1; 0; 1; 0; 1; 0; 1; 0; 1; 0; 1]%nat boot)).
Proof.
  refine (proj1 (proj1 (runner_waits_for_all (any_host 3) 4)
            [0; 1; 0; 1; 0; 1; 0; 1; 0; 1; 0; 1]%nat boot
            (Returned tt) _ (104, []) _) 1%nat).
  vm_compute. reflexivity.
Defined.

(** C10: the result of [BuildProcess] does not depend on how a child
    exited.  Whenever the body ends in the class the handler absorbs (it
    returned, or a child exited with a status other than zero), the result
    is [None].  Hence two [map] calls over the same commands, on any two
    states of the host and under any two schedules, in which every failure
    was an exit status (every command was accepted by [Popen], and no
    [exec] failed), return the same list: one [None] per command, in input
    order. *)
Theorem results_are_deterministic
    (os : OS) (n : Z) (p : pool) (cmds : list string)
    (s1 s2 : list nat) (w1 w2 : world os)
    (o1 o2 : outcome (list unit)) (t1 t2 : list (nat * event))
    (w1' w2' : world os) :
  Pool n = Returned p ->
  existsb has_nul cmds = false ->
  pool_map p BuildProcess cmds s1 w1 = Some (o1, t1, w1') ->
  pool_map p BuildProcess cmds s2 w2 = Some (o2, t2, w2') ->
  no_exec_failure t1 ->
  no_exec_failure t2 ->
  (forall cmd (w : world os),
     in_caught_class (result_of (BuildProcess_body cmd) w) = true ->
     result_of (BuildProcess cmd) w = Returned tt)
  /\ o1 = Returned (repeat tt (length cmds))
  /\ o2 = o1.
Proof.
  intros Hpool Hnul H1 H2 Hok1 Hok2. split; [| split].
  - intros cmd w. unfold result_of, BuildProcess. cbn [catch Exc_prog].
    rewrite run_try_except.
    destruct (run (BuildProcess_body cmd) w) as [[[[] | e] t] w0]; cbn;
      [reflexivity|].
    destruct e; cbn; intros H; try discriminate H; reflexivity.
  - eapply pool_map_returns_all; eauto.
  - rewrite (pool_map_returns_all n p cmds s1 w1 o1 t1 w1' Hpool Hnul H1 Hok1).
    eapply pool_map_returns_all; eauto.
Qed.

Lemma results_are_deterministic_witness :
  (Returned [tt; tt] : outcome (list unit))
    = Returned (repeat tt (length commands))
  /\ pool_map (os := any_host 3) {| pool_size := 3 |} BuildProcess commands
       [1; 1; 0; 1; 0; 0; 1; 0; 1; 0; 1; 0]%nat boot
     <> None.
Proof.
  assert (Hok : forall t : list (nat * event),
             forallb (fun x => match snd x with
                               | EvExec _ _ (ExecFailed _) => false
                               | _ => true
                               end) t = true ->
             no_exec_failure t).
  { intros t Ht i x v errno Hin. rewrite forallb_forall in Ht.
    specialize (Ht _ Hin). discriminate Ht. }
  split.
  - refine (proj1 (proj2 (results_are_deterministic (any_host 3) 3
              {| pool_size := 3 |} commands
              [0; 0; 0; 0; 0; 0; 1; 1; 1; 1; 1; 1]%nat
              [1; 1; 0; 1; 0; 0; 1; 0; 1; 0; 1; 0]%nat
              boot boot (Returned [tt; tt]) (Returned [tt; tt])
              _ _ (104, []) (104, []) eq_refl eq_refl _ _ _ _)));
      try (vm_compute; reflexivity); apply Hok; reflexivity.
  - vm_compute. discriminate.
Defined.

(** * Further properties of the script *)

(** ** One worker call, continued *)

Lemma BuildProcess_run_notice_first cmd o t :
  BuildProcess_run cmd o t ->
  forall l1 ev l2, t = l1 ++ ev :: l2 -> is_exec ev = true -> In (notice cmd) l1.
Proof.
  intros H l1 ev l2 Heq Hev.
  assert (Hhd : exists l, t = notice cmd :: l) by (destruct H; eauto).
  destruct Hhd as [l ->]. destruct l1 as [| a l1]; cbn in Heq.
  - injection Heq as <- _. discriminate Hev.
  - injection Heq as <- _. now left.
Qed.

Lemma BuildProcess_run_returned cmd b t :
  BuildProcess_run cmd (Returned b) t ->
  forall x v errno, ~ In (EvExec x v (ExecFailed errno)) t.
Proof.
  intros H x v errno Hin. inversion H; subst; cbn in Hin; unfold notice in Hin;
    repeat (destruct Hin as [Hin | Hin]; [discriminate Hin |]); exact Hin.
Qed.

Lemma BuildProcess_run_raised_by cmd e t :
  BuildProcess_run cmd (Raised e) t ->
  has_nul cmd = false ->
  exists errno x,
    e = OSError errno x /\ (x = "pwd" \/ x = cmd)
    /\ In (EvExec x [x] (ExecFailed errno)) t
    /\ last t (notice cmd) = EvExec x [x] (ExecFailed errno).
Proof.
  intros H Hnul. inversion H; subst; try congruence.
  - exists errno, "pwd". cbn. auto 6.
  - exists errno, cmd. cbn. auto 8.
Qed.

(** The only line a call of [BuildProcess] writes is its notice: the
    handler reports nothing, whether the command succeeded, failed or
    could not be started. *)
Theorem BuildProcess_writes_only_notice (os : OS) (cmd : string) (w : world os) :
  filter is_write (trace_of (BuildProcess cmd) w) = [notice cmd].
Proof. bp_cases cmd w; reflexivity. Qed.

(** A call of [BuildProcess] has at most one child at a time and leaves
    none behind: it creates at most two, each creation is followed at once
    by the wait for that very child, and so the children created are the
    children waited for, in order. *)
Theorem BuildProcess_children_one_at_a_time
    (os : OS) (cmd : string) (w : world os) :
  created (trace_of (BuildProcess cmd) w) = waited (trace_of (BuildProcess cmd) w)
  /\ (length (created (trace_of (BuildProcess cmd) w)) <= 2)%nat
  /\ (forall t1 x v p t2,
        trace_of (BuildProcess cmd) w = t1 ++ EvExec x v (Child p) :: t2 ->
        exists rc t3, t2 = EvWait p rc :: t3).
Proof.
  bp_cases cmd w; (split; [reflexivity | split; [cbn; lia |]]);
    intros t1 x v p0 t2 Heq; unfold notice in Heq;
    repeat (destruct t1 as [| ? t1]; cbn in Heq;
            [ try discriminate Heq; injection Heq as _ _ <- <-; eauto
            | try discriminate Heq; injection Heq as _ Heq ]);
    destruct t1; discriminate Heq.
Qed.

(** [BuildProcess] raises in two cases only, and never a
    [CalledProcessError].  Either an [exec] failed: the exception is the
    [OSError] of that [exec], it carries its [errno] and names the program
    that could not be started ([pwd] or the command line itself), and the
    failed [exec] is the last thing the call did.  Or the command holds a
    NUL byte: after the diagnostic has succeeded [Popen] refuses the
    command with [ValueError] and nothing is handed to [exec] for it. *)
Theorem BuildProcess_raises_only_unstartable
    (os : OS) (cmd : string) (w : world os) (e : exn) :
  result_of (BuildProcess cmd) w = Raised e ->
  (exists errno x,
     e = OSError errno x
     /\ (x = "pwd" \/ (x = cmd /\ has_nul cmd = false))
     /\ last (trace_of (BuildProcess cmd) w) (notice cmd)
        = EvExec x [x] (ExecFailed errno))
  \/ (e = ValueError "embedded null byte"
      /\ has_nul cmd = true
      /\ exists p, trace_of (BuildProcess cmd) w
                   = [notice cmd; EvExec "pwd" ["pwd"] (Child p); EvWait p 0]).
Proof.
  intros H. pose proof (BuildProcess_run_cases cmd w) as Hrun. rewrite H in Hrun.
  inversion Hrun; subst.
  - left. exists errno, "pwd". cbn. auto.
  - right. eauto.
  - left. exists errno, cmd. cbn. auto.
Qed.

Lemma BuildProcess_raises_only_unstartable_witness :
  (exists errno x,
     FileNotFoundError "true" = OSError errno x
     /\ (x = "pwd" \/ (x = "true" /\ has_nul "true" = false))
     /\ last (trace_of (os := posix_host) (BuildProcess "true") boot)
             (notice "true")
        = EvExec x [x] (ExecFailed errno))
  \/ (FileNotFoundError "true" = ValueError "embedded null byte"
      /\ has_nul "true" = true
      /\ exists p, trace_of (os := posix_host) (BuildProcess "true") boot
                   = [notice "true"; EvExec "pwd" ["pwd"] (Child p); EvWait p 0]).
Proof.
  apply (BuildProcess_raises_only_unstartable posix_host "true" boot
           (FileNotFoundError "true")).
  reflexivity.
Defined.

(** ** The script as a whole, continued *)

Lemma events_of_In i ev t : In (i, ev) t -> In ev (events_of i t).
Proof.
  intros H. unfold events_of. apply in_map_iff. exists (i, ev).
  split; [reflexivity|]. apply filter_In. split; [assumption|].
  apply Nat.eqb_refl.
Qed.

Lemma events_of_split i t1 ev t2 :
  events_of i (t1 ++ (i, ev) :: t2) = events_of i t1 ++ ev :: events_of i t2.
Proof.
  rewrite events_of_app. f_equal. unfold events_of. cbn.
  now rewrite Nat.eqb_refl.
Qed.

(** With a pool, [main] is two calls of [BuildProcess], one per command,
    each complete when [main] is over; [main] returns when both returned
    and otherwise raises what one of them raised. *)
Lemma main_outcomes (os : OS) cpu_count sched (w : world os) o t w' :
  2 <= cpu_count ->
  main os cpu_count sched w = Some (o, t, w') ->
  exists o0 o1,
    BuildProcess_run "cp -R dist ../electron_app/dist/renderer" o0 (events_of 0 t)
    /\ BuildProcess_run "pushd ../web_app && npm run build &&  && popd" o1
         (events_of 1 t)
    /\ (forall k ev, In (k, ev) t -> (k < 2)%nat)
    /\ (o = Returned tt <-> o0 = Returned tt /\ o1 = Returned tt)
    /\ (forall e, o = Raised e -> o0 = Raised e \/ o1 = Raised e).
Proof.
  intros Hcpu Hmain. unfold main, Pool in Hmain.
  destruct (Z.ltb_spec (cpu_count - 1) 1); [lia|].
  set (p := {| pool_size := cpu_count - 1 |}) in *.
  destruct (pool_map p BuildProcess commands sched w) as [[[o' t0] w0] |] eqn:Hmap;
    [| discriminate].
  assert (Ho : o = match o' with
                   | Returned _ => Returned tt
                   | Raised e => Raised e
                   end /\ t = t0).
  { destruct o'; injection Hmain as <- <- _; auto. }
  destruct Ho as [-> ->]. clear Hmain.
  apply pool_map_Some in Hmap. destruct Hmap as (Hget & -> & _).
  pose proof (sched_run_inv _ sched _ (map_async_inv p BuildProcess commands w))
    as Hinv.
  assert (Hbatches : task_batches p commands = map (fun a => [a]) commands).
  { apply task_batches_small; cbn; lia. }
  destruct (map_get_batches p BuildProcess commands sched w o' Hget 0%nat
              ["cp -R dist ../electron_app/dist/renderer"])
    as (ob0 & Hk0 & Hrun0); [now rewrite Hbatches|].
  destruct (map_get_batches p BuildProcess commands sched w o' Hget 1%nat
              ["pushd ../web_app && npm run build &&  && popd"])
    as (ob1 & Hk1 & Hrun1); [now rewrite Hbatches|].
  destruct (mapstar_BuildProcess_single _ _ _ Hrun0) as (o0 & Hbp0 & Hob0).
  destruct (mapstar_BuildProcess_single _ _ _ Hrun1) as (o1 & Hbp1 & Hob1).
  set (j := sched_run (map_async p BuildProcess commands w) sched) in *.
  assert (Hlen : length (j_tasks j) = 2%nat).
  { rewrite (inv_length _ _ Hinv), length_map, Hbatches. reflexivity. }
  exists o0, o1. split; [exact Hbp0 | split; [exact Hbp1 | split]].
  { intros k ev Hin. pose proof (inv_range _ _ Hinv k ev Hin) as Hk.
    now rewrite length_map, Hbatches in Hk. }
  unfold map_get in Hget.
  destruct (forallb is_done (j_tasks j)); [| discriminate].
  destruct (j_failure j) as [e |] eqn:Hf; injection Hget as <-.
  - destruct (inv_failure _ _ Hinv e Hf) as [i Hi].
    assert (Hi2 : (i < 2)%nat) by (rewrite <- Hlen; apply nth_error_Some; congruence).
    assert (Hone : o0 = Raised e \/ o1 = Raised e).
    { destruct i as [| [| i]]; [| | lia].
      - left. rewrite Hk0 in Hi. injection Hi as ->.
        destruct o0; [discriminate Hob0 | congruence].
      - right. rewrite Hk1 in Hi. injection Hi as ->.
        destruct o1; [discriminate Hob1 | congruence]. }
    split.
    + split; [discriminate|]. intros [-> ->]. destruct Hone; discriminate.
    + intros e' [= <-]. exact Hone.
  - split; [| discriminate]. split; [intros _ | reflexivity].
    pose proof (inv_no_failure _ _ Hinv Hf) as Hno.
    split.
    + destruct o0 as [[] | e]; [reflexivity|]. subst ob0.
      now destruct (Hno 0%nat e).
    + destruct o1 as [[] | e]; [reflexivity|]. subst ob1.
      now destruct (Hno 1%nat e).
Qed.

(** When a pool exists, [main] returns normally exactly when no [exec]
    failed; exit statuses play no part.  When it raises, the exception is
    the [OSError] of an [exec] that failed in one of its workers, for [pwd]
    or for one of the two command lines. *)
Theorem main_fails_only_on_failed_exec
    (os : OS) (cpu_count : Z) (sched : list nat) (w : world os)
    (o : outcome unit) (t : list (nat * event)) (w' : world os) :
  2 <= cpu_count ->
  main os cpu_count sched w = Some (o, t, w') ->
  (o = Returned tt <-> no_exec_failure t)
  /\ (forall e, o = Raised e ->
        exists i errno x,
          e = OSError errno x
          /\ (x = "pwd" \/ In x commands)
          /\ In (i, EvExec x [x] (ExecFailed errno)) t).
Proof.
  intros Hcpu Hmain.
  destruct (main_outcomes os cpu_count sched w o t w' Hcpu Hmain)
    as (o0 & o1 & H0 & H1 & Hrange & Hret & Hraise).
  split.
  - rewrite Hret. split.
    + intros [-> ->] i x v errno Hin.
      pose proof (Hrange _ _ Hin) as Hi. apply events_of_In in Hin.
      destruct i as [| [| i]]; [| | lia].
      * exact (BuildProcess_run_returned _ _ _ H0 x v errno Hin).
      * exact (BuildProcess_run_returned _ _ _ H1 x v errno Hin).
    + intros Hok. split.
      * destruct o0 as [[] | e]; [reflexivity | exfalso].
        destruct (BuildProcess_run_raised_by _ _ _ H0 eq_refl)
          as (errno & x & _ & _ & Hin & _).
        apply In_events_of in Hin. exact (Hok _ _ _ _ Hin).
      * destruct o1 as [[] | e]; [reflexivity | exfalso].
        destruct (BuildProcess_run_raised_by _ _ _ H1 eq_refl)
          as (errno & x & _ & _ & Hin & _).
        apply In_events_of in Hin. exact (Hok _ _ _ _ Hin).
  - intros e He. destruct (Hraise e He) as [-> | ->].
    + destruct (BuildProcess_run_raised_by _ _ _ H0 eq_refl)
        as (errno & x & -> & Hx & Hin & _).
      exists 0%nat, errno, x. split; [reflexivity | split].
      * destruct Hx as [-> | ->]; [now left | right; cbn; auto].
      * now apply In_events_of.
    + destruct (BuildProcess_run_raised_by _ _ _ H1 eq_refl)
        as (errno & x & -> & Hx & Hin & _).
      exists 1%nat, errno, x. split; [reflexivity | split].
      * destruct Hx as [-> | ->]; [now left | right; cbn; auto].
      * now apply In_events_of.
Qed.

Lemma main_fails_only_on_failed_exec_witness :
  (Returned tt : outcome unit) = Returned tt
  <-> no_exec_failure
        (main_trace (any_host 7) 2 [0; 1; 1; 0; 0; 1; 1; 0; 0; 1; 1; 0]%nat boot).
Proof.
  apply (main_fails_only_on_failed_exec (any_host 7) 2
           [0; 1; 1; 0; 0; 1; 1; 0; 0; 1; 1; 0]%nat boot (Returned tt)
           (main_trace (any_host 7) 2
              [0; 1; 1; 0; 0; 1; 1; 0; 0; 1; 1; 0]%nat boot)
           (104, [])).
  - lia.
  - vm_compute. reflexivity.
Defined.

(** Under every interleaving of the two workers the order of one worker's
    steps is kept: in the trace of [main], whatever [exec] a worker issues
    for its command comes after that worker has written the notice for the
    command. *)
Theorem main_notice_before_children
    (os : OS) (cpu_count : Z) (sched : list nat) (w : world os)
    (o : outcome unit) (t : list (nat * event)) (w' : world os)
    (i : nat) (cmd : string)
    (t1 : list (nat * event)) (ev : event) (t2 : list (nat * event)) :
  2 <= cpu_count ->
  main os cpu_count sched w = Some (o, t, w') ->
  nth_error commands i = Some cmd ->
  t = t1 ++ (i, ev) :: t2 ->
  is_exec ev = true ->
  In (i, notice cmd) t1.
Proof.
  intros Hcpu Hmain Hi Ht Hev.
  destruct (main_outcomes os cpu_count sched w o t w' Hcpu Hmain)
    as (o0 & o1 & H0 & H1 & _).
  apply In_events_of.
  destruct i as [| [| i]]; cbn in Hi; [| | destruct i; discriminate];
    injection Hi as <-.
  - eapply BuildProcess_run_notice_first;
      [exact H0 | rewrite Ht; apply events_of_split | exact Hev].
  - eapply BuildProcess_run_notice_first;
      [exact H1 | rewrite Ht; apply events_of_split | exact Hev].
Qed.

Lemma main_notice_before_children_witness :
  In (1%nat, notice "pushd ../web_app && npm run build &&  && popd")
     [ (1%nat, notice "pushd ../web_app && npm run build &&  && popd");
       (0%nat, notice "cp -R dist ../electron_app/dist/renderer") ].
Proof.
  apply (main_notice_before_children posix_host 3
           [1; 0; 1; 0; 1; 0; 1; 0; 1; 0]%nat boot
           (Raised (FileNotFoundError
                      "pushd ../web_app && npm run build &&  && popd"))
           (main_trace posix_host 3 [1; 0; 1; 0; 1; 0; 1; 0; 1; 0]%nat boot)
           (102, []) 1%nat "pushd ../web_app && npm run build &&  && popd"
           _ (EvExec "pwd" ["pwd"] (Child 100))
           [ (0%nat, EvExec "pwd" ["pwd"] (Child 101));
             (1%nat, EvWait 100 0); (0%nat, EvWait 101 0);
             (1%nat, EvExec "pushd ../web_app && npm run build &&  && popd"
                       ["pushd ../web_app && npm run build &&  && popd"]
                       (ExecFailed ENOENT));
             (0%nat, EvExec "cp -R dist ../electron_app/dist/renderer"
                       ["cp -R dist ../electron_app/dist/renderer"]
                       (ExecFailed ENOENT)) ]).
  - lia.
  - vm_compute. reflexivity.
  - reflexivity.
  - vm_compute. reflexivity.
  - reflexivity.
Defined.

(** What the two workers of a run of [main] with a pool do through
    [print] and [check_call], whatever the host and the schedule: they
    write two lines, one notice per command and nothing else; they hand
    [pwd] to [exec] twice, once per command; and [check_call] creates at
    most four children in all.  The worker processes of the pool itself,
    and what the children write on their own, are not part of the trace
    and not counted here. *)
Theorem main_output_and_children
    (os : OS) (cpu_count : Z) (sched : list nat) (w : world os)
    (o : outcome unit) (t : list (nat * event)) (w' : world os) :
  2 <= cpu_count ->
  main os cpu_count sched w = Some (o, t, w') ->
  length (filter is_write (map snd t)) = 2%nat
  /\ exec_count "pwd" t = 2%nat
  /\ (length (filter is_child (map snd t)) <= 4)%nat.
Proof.
  intros Hcpu Hmain.
  destruct (main_outcomes os cpu_count sched w o t w' Hcpu Hmain)
    as (o0 & o1 & H0 & H1 & Hrange & _).
  unfold exec_count. rewrite !(filter_events_split2 _ t Hrange).
  revert H0 H1. generalize (events_of 0 t) (events_of 1 t). intros t0 t1 H0 H1.
  destruct H0; destruct H1; vm_compute; repeat split; lia.
Qed.

Lemma main_output_and_children_witness :
  length (filter is_write (map snd
    (main_trace lost_cwd_host 2 [0; 0; 0; 0; 1; 1; 1; 1]%nat boot))) = 2%nat.
Proof.
  apply (main_output_and_children lost_cwd_host 2
           [0; 0; 0; 0; 1; 1; 1; 1]%nat boot (Returned tt)
           (main_trace lost_cwd_host 2 [0; 0; 0; 0; 1; 1; 1; 1]%nat boot)
           (102, [])).
  - lia.
  - vm_compute. reflexivity.
Defined.

(** Which failure [main] reports is up to the schedule.  [map] keeps the
    first failure handed back and drops the others, so on one host, from
    one state, the batch that is done first decides: on the ordinary POSIX
    host [main] raises the [FileNotFoundError] of the first command under
    one schedule and that of the second under another. *)
Theorem reported_failure_depends_on_schedule :
  option_map (fun r => fst (fst r))
    (main posix_host 4 [0; 0; 0; 0; 0; 1; 1; 1; 1; 1]%nat boot)
  = Some (Raised (FileNotFoundError "cp -R dist ../electron_app/dist/renderer"))
  /\ option_map (fun r => fst (fst r))
       (main posix_host 4 [1; 1; 1; 1; 1; 0; 0; 0; 0; 0]%nat boot)
     = Some (Raised (FileNotFoundError
                       "pushd ../web_app && npm run build &&  && popd")).
Proof. split; reflexivity. Qed.

(** [main] raises [ValueError] exactly when fewer than two processors are
    detected; it has then written nothing, started nothing and left the
    host as it was, whatever the schedule. *)
Theorem main_ValueError_iff_no_pool
    (os : OS) (cpu_count : Z) (sched : list nat) (w : world os)
    (o : outcome unit) (t : list (nat * event)) (w' : world os) :
  main os cpu_count sched w = Some (o, t, w') ->
  ((exists msg, o = Raised (ValueError msg)) <-> cpu_count < 2)
  /\ (cpu_count < 2 -> t = [] /\ w' = w).
Proof.
  intros Hmain. split; [split |].
  - intros [msg ->]. destruct (Z.lt_ge_cases cpu_count 2) as [Hlt | Hge];
      [assumption | exfalso].
    destruct (main_outcomes os cpu_count sched w _ t w' Hge Hmain)
      as (o0 & o1 & H0 & H1 & _ & _ & Hraise).
    destruct (Hraise _ eq_refl) as [-> | ->].
    + destruct (BuildProcess_run_raised_by _ _ _ H0 eq_refl) as (? & ? & He & _).
      discriminate He.
    + destruct (BuildProcess_run_raised_by _ _ _ H1 eq_refl) as (? & ? & He & _).
      discriminate He.
  - intros Hlt. rewrite (main_no_pool os cpu_count sched w Hlt) in Hmain.
    injection Hmain as <- _ _. eauto.
  - intros Hlt. rewrite (main_no_pool os cpu_count sched w Hlt) in Hmain.
    injection Hmain as _ <- <-. auto.
Qed.

Lemma main_ValueError_iff_no_pool_witness :
  (exists msg,
     Raised (ValueError "Number of processes must be at least 1")
     = (Raised (ValueError msg) : outcome unit))
  <-> 1 < 2.
Proof.
  apply (main_ValueError_iff_no_pool posix_host 1 [3; 0; 1]%nat boot
           (Raised (ValueError "Number of processes must be at least 1"))
           [] boot).
  reflexivity.
Defined.
